(** * Shibari School: related-article slots, the cart, lessons and filters

    A shallow embedding of the list logic of the application:

    - [currentRelatedArticles], the [useMemo] body of [App] that maps a
      lesson's [related_articles] onto the four-slot grid;
    - the cart handlers [addToCart], [removeFromCart] and
      [updateCartQuantity] of [App], each applied to the previous cart
      state, and the badge count of [MarketplaceModal];
    - the lesson state of [App]: the fetch guard, the optimistic edit,
      [activeLesson] and the sidebar clicks with their lock;
    - [getData] of [App], the category bar and product filter of
      [MarketplaceModal], and the search of [ArticlesModal].

    JavaScript numbers that the code uses as identifiers, quantities and
    deltas are integers here ([Z]); [undefined] and [null] are [None].
    Fields of [types.ts] and string built-ins that the code only passes
    through ([toLowerCase], [trim]) are parameters of the definitions that
    use them. *)

From Stdlib Require Import ZArith Ascii String List Sorted.
From stdpp Require Import base decidable option list strings gmap.

Local Open Scope Z_scope.

(** ** Data model (the fields of [types.ts] that the code reads) *)

Module Article.
Record t : Type := mk { id : Z; title : string; url : string }.

Definition eq_dec (a b : t) : {a = b} + {a <> b}.
Proof. decide equality; first [apply string_dec | apply Z.eq_dec]. Defined.
End Article.

Module Product.
Record t : Type := mk { id : Z; title : string; price : Z }.
End Product.

Module CartItem.
Record t : Type := mk { product : Product.t; quantity : Z }.

(** [{ ...item, quantity: q }] *)
Definition with_quantity (item : t) (q : Z) : t :=
  {| product := product item; quantity := q |}.
End CartItem.

#[global] Instance Article_eq_dec : EqDecision Article.t := Article.eq_dec.

(** ** JavaScript arrays with holes *)

Section JsArray.
Context {A : Type}.

(** [arr[i]]: [undefined] past the end and at a hole. *)
Definition js_get (arr : list (option A)) (i : nat) : option A :=
  match arr !! i with
  | Some (Some v) => Some v
  | _ => None
  end.

(** [arr[i] = v]: overwrites in range, otherwise grows the array and
    leaves holes between the old end and [i]. *)
Definition js_set (arr : list (option A)) (i : nat) (v : A) : list (option A) :=
  if (i <? length arr)%nat then <[i := Some v]> arr
  else arr ++ replicate (i - length arr) None ++ [Some v].
End JsArray.

(** [if (id)] on a [number | undefined]: [undefined], [null] and [0] are
    falsy. *)
Definition truthy (id : option Z) : bool :=
  match id with
  | Some z => negb (z =? 0)
  | None => false
  end.

(** ** Related-article slots *)

Section Slots.
Variable configIds : list (option Z).
Variable articles : list Article.t.

(** [articles.find(a => a.id === id)] *)
Definition find_article (id : Z) : option Article.t :=
  List.find (fun a => Article.id a =? id) articles.

(** Body of the first loop: state is [(result, usedIds)]. *)
Definition fixed_step (st : list (option Article.t) * gset Z) (i : nat)
  : list (option Article.t) * gset Z :=
  let id := js_get configIds i in
  if truthy id then
    match id with
    | Some n =>
        match find_article n with
        | Some art => (js_set (fst st) i art, {[Article.id art]} ∪ snd st)
        | None => st
        end
    | None => st
    end
  else st.

(** [for (let i = 0; i < 4; i++)] of step 1, from [result = []] and
    [usedIds = new Set()]. *)
Definition fill_fixed : list (option Article.t) * gset Z :=
  foldl fixed_step ([], ∅) (seq 0 4).

Definition usedIds : gset Z := snd fill_fixed.

(** [articles.filter(a => !usedIds.has(a.id))] *)
Definition fillers : list Article.t :=
  filter (fun a => Article.id a ∉ usedIds) articles.

Definition NoArticle : Article.t :=
  {| Article.id := 0; Article.title := "No Article"%string;
     Article.url := "#"%string |}.

(** [articles[0] || { id: 0, title: 'No Article', url: '#' }] *)
Definition fallback : Article.t :=
  match articles !! 0%nat with
  | Some a => a
  | None => NoArticle
  end.

(** Body of the second loop: state is [(result, fillerIndex)].  The test
    [fillerIndex < fillers.length] is the case where
    [fillers[fillerIndex]] is defined. *)
Definition filler_step (st : list (option Article.t) * nat) (i : nat)
  : list (option Article.t) * nat :=
  match js_get (fst st) i with
  | Some _ => st
  | None =>
      if (snd st <? length fillers)%nat then
        match fillers !! snd st with
        | Some f => (js_set (fst st) i f, S (snd st))
        | None => st
        end
      else (js_set (fst st) i fallback, snd st)
  end.

Definition fill_empty (result : list (option Article.t))
  : list (option Article.t) * nat :=
  foldl filler_step (result, 0%nat) (seq 0 4).

(** The memoised value. *)
Definition currentRelatedArticles : list (option Article.t) :=
  fst (fill_empty (fst fill_fixed)).
End Slots.

(** ** Cart handlers, as functions of the previous state *)

Abbreviation Cart := (list CartItem.t).

Definition item_id (item : CartItem.t) : Z := Product.id (CartItem.product item).

Definition addToCart (product : Product.t) (prev : Cart) : Cart :=
  match List.find (fun item => item_id item =? Product.id product) prev with
  | Some _ =>
      List.map (fun item =>
                  if item_id item =? Product.id product
                  then CartItem.with_quantity item (CartItem.quantity item + 1)
                  else item) prev
  | None => prev ++ [ {| CartItem.product := product; CartItem.quantity := 1 |} ]
  end.

Definition removeFromCart (productId : Z) (prev : Cart) : Cart :=
  List.filter (fun item => negb (item_id item =? productId)) prev.

Definition updateCartQuantity (productId delta : Z) (prev : Cart) : Cart :=
  List.map (fun item =>
              if item_id item =? productId then
                let newQ := CartItem.quantity item + delta in
                if newQ <? 1 then item else CartItem.with_quantity item newQ
              else item) prev.

(** The operations a user can perform on the cart, and the cart they
    produce when applied in order to the initial [useState([])]. *)
Inductive CartOp : Type :=
| Add (product : Product.t)
| Remove (productId : Z)
| SetQuantityDelta (productId delta : Z).

Definition apply_op (cart : Cart) (op : CartOp) : Cart :=
  match op with
  | Add p => addToCart p cart
  | Remove pid => removeFromCart pid cart
  | SetQuantityDelta pid delta => updateCartQuantity pid delta cart
  end.

Definition run_ops (ops : list CartOp) : Cart := foldl apply_op [] ops.

(** ** Vocabulary for the statements about the cart *)

(** The cart has no entry for [productId]. *)
Definition no_entry (productId : Z) (cart : Cart) : Prop :=
  Forall (fun item => item_id item <> productId) cart.

(** Every quantity is at least 1. *)
Definition quantities_positive (cart : Cart) : Prop :=
  Forall (fun item => 1 <= CartItem.quantity item) cart.

(** No two entries have the same product id. *)
Definition ids_unique (cart : Cart) : Prop :=
  List.NoDup (List.map item_id cart).

(** Replacing the quantity of the entries for [productId]. *)
Definition set_quantity_of (productId : Z) (newq : CartItem.t -> Z) (cart : Cart)
  : Cart :=
  List.map (fun it => if item_id it =? productId
                      then CartItem.with_quantity it (newq it) else it) cart.

(** ** Vocabulary for the statements about the slots *)

Section SlotVocabulary.
Variable configIds : list (option Z).
Variable articles : list Article.t.

(** What the first loop stores at index [i], if anything. *)
Definition resolve (i : nat) : option Article.t :=
  if truthy (js_get configIds i)
  then js_get configIds i ≫= find_article articles
  else None.

Definition is_hole (result : list (option Article.t)) (j : nat) : bool :=
  match js_get result j with
  | Some _ => false
  | None => true
  end.

(** Number of indices below [i] that are still empty in [result]: the
    value of [fillerIndex] on entry to iteration [i] of the second loop,
    as long as the queue has not run out. *)
Definition emptyBefore (result : list (option Article.t)) (i : nat) : nat :=
  length (List.filter (is_hole result) (seq 0 i)).

(** What the second loop puts into an empty slot when [k] empty slots
    precede it. *)
Definition secondPass (k : nat) : Article.t :=
  match fillers configIds articles !! k with
  | Some f => f
  | None => fallback articles
  end.

Definition slotValue (result : list (option Article.t)) (i : nat) : Article.t :=
  match js_get result i with
  | Some a => a
  | None => secondPass (emptyBefore result i)
  end.
End SlotVocabulary.

(** ** Sample data *)

Definition art (n : Z) (s : string) : Article.t :=
  {| Article.id := n; Article.title := s; Article.url := "#"%string |}.

Definition sample_articles : list Article.t :=
  [art 1 "knots"; art 2 "rope care"; art 3 "safety"; art 4 "history"; art 5 "glossary"].

Definition zero_articles : list Article.t :=
  [art 5 "glossary"; art 0 "draft"; art 6 "anatomy"; art 7 "frictions"].

(** The same id configured for the first two slots. *)
Definition duplicate_ids : list (option Z) := [Some 1; Some 1].

(** Only the third slot is configured. *)
Definition sparse_ids : list (option Z) := [None; None; Some 3].

(** A [0] in the first slot, next to a proper id. *)
Definition zero_first_ids : list (option Z) := [Some 0; Some 6].

Definition rope : Product.t :=
  {| Product.id := 11; Product.title := "jute rope"; Product.price := 25 |}.

Definition shears : Product.t :=
  {| Product.id := 12; Product.title := "safety shears"; Product.price := 9 |}.

(** ** Cart badge ([MarketplaceModal]) *)

(** [cart.reduce((acc, item) => acc + item.quantity, 0)] *)
Definition cartCount (cart : Cart) : Z :=
  fold_left (fun acc item => acc + CartItem.quantity item) cart 0.

(** ** Lessons: loading, editing, selection ([App]) *)

Module Lesson.
Record t : Type := mk { id : Z; related_articles : option (list (option Z)) }.
End Lesson.

(** [Partial<Lesson>]: a key is either missing or present with a value. *)
Module LessonPatch.
Record t : Type :=
  mk { id : option Z; related_articles : option (option (list (option Z))) }.
End LessonPatch.

(** [{ ...l, ...data }] *)
Definition merge_lesson (l : Lesson.t) (data : LessonPatch.t) : Lesson.t :=
  {| Lesson.id := default (Lesson.id l) (LessonPatch.id data);
     Lesson.related_articles :=
       default (Lesson.related_articles l) (LessonPatch.related_articles data) |}.

(** The state update of [handleUpdateLesson]:
    [prev.map(l => l.id === id ? { ...l, ...data } : l)]. *)
Definition optimisticUpdate (id : Z) (data : LessonPatch.t) (prev : list Lesson.t)
  : list Lesson.t :=
  List.map (fun l => if Lesson.id l =? id then merge_lesson l data else l) prev.

(** One line of [fetchData]: [if (data && data.length) setX(data)]. *)
Definition setIfLoaded {A : Type} (data : option (list A)) (current : list A)
  : list A :=
  match data with
  | Some (x :: rest) => x :: rest
  | _ => current
  end.

(** [lessons.find(l => l.id === currentLessonId) || lessons[0]];
    [None] is [undefined]. *)
Definition activeLesson (lessons : list Lesson.t) (currentLessonId : Z)
  : option Lesson.t :=
  match List.find (fun l => Lesson.id l =? currentLessonId) lessons with
  | Some l => Some l
  | None => lessons !! 0%nat
  end.

(** [activeLesson.related_articles || []] *)
Definition configIdsOf (lesson : Lesson.t) : list (option Z) :=
  default [] (Lesson.related_articles lesson).

(** The part of the component state that lesson clicks touch. *)
Record NavState : Type :=
  { currentLessonId : Z; isAuthOpen : bool; isSidebarOpen : bool }.

(** [useState(1)], [useState(false)], [useState(false)] *)
Definition initialNav : NavState :=
  {| currentLessonId := 1; isAuthOpen := false; isSidebarOpen := false |}.

(** [!userProfile && index >= 4] *)
Definition isLocked {U : Type} (userProfile : option U) (index : nat) : bool :=
  match userProfile with
  | Some _ => false
  | None => (4 <=? index)%nat
  end.

Definition handleLessonClick (lessonId : Z) (locked : bool) (st : NavState)
  : NavState :=
  if locked then
    {| currentLessonId := currentLessonId st; isAuthOpen := true;
       isSidebarOpen := isSidebarOpen st |}
  else
    {| currentLessonId := lessonId; isAuthOpen := isAuthOpen st;
       isSidebarOpen := false |}.

(** A click on the sidebar button rendered for [lessons[index]]:
    [handleLessonClick(lesson.id, isLocked)]. *)
Definition clickLesson {U : Type} (lessons : list Lesson.t) (userProfile : option U)
           (st : NavState) (index : nat) : NavState :=
  match lessons !! index with
  | Some lesson => handleLessonClick (Lesson.id lesson) (isLocked userProfile index) st
  | None => st
  end.

(** What can happen to the [lessons] state: a fetch result arrives, or an
    administrator edits a lesson. *)
Inductive LessonEvent : Type :=
| Fetched (data : option (list Lesson.t))
| Edited (id : Z) (data : LessonPatch.t).

Definition applyLessonEvent (lessons : list Lesson.t) (ev : LessonEvent)
  : list Lesson.t :=
  match ev with
  | Fetched data => setIfLoaded data lessons
  | Edited id data => optimisticUpdate id data lessons
  end.

(** The lesson shown for [currentLessonId] is one of the first four. *)
Definition free_lesson (lessons : list Lesson.t) (currentLessonId : Z) : Prop :=
  exists k l, (k < 4)%nat /\ lessons !! k = Some l /\
              activeLesson lessons currentLessonId = Some l.

Definition six_lessons : list Lesson.t :=
  [Lesson.mk 1 None; Lesson.mk 2 None; Lesson.mk 3 (Some [Some 2]);
   Lesson.mk 4 None; Lesson.mk 5 None; Lesson.mk 6 None].

(** ** Localised fields ([getData] of [App]) *)

Inductive Lang : Type := ru | en.

(** A JavaScript string is truthy when it is not empty. *)
Definition nonEmpty (s : string) : bool := negb (String.eqb s "").

Section GetData.
Context {V : Type}.
(** Truthiness of a field value. *)
Variable truthyV : V -> bool.

(** [if (lang === 'en' && item[field + '_en']) return item[field + '_en'];
     return item[field];] *)
Definition getData (lang : Lang) (item : gmap string V) (field : string)
  : option V :=
  match lang with
  | en =>
      match item !! (field +:+ "_en") with
      | Some v => if truthyV v then Some v else item !! field
      | None => item !! field
      end
  | ru => item !! field
  end.
End GetData.

(** ** Shop filters ([MarketplaceModal]) *)

(** [s.includes(q)] *)
Fixpoint includes (s q : string) : bool :=
  String.prefix q s ||
  match s with
  | EmptyString => false
  | String _ rest => includes rest q
  end.

Module Marketplace.
Section Defs.
(** The [category] field of a product, [None] when it is not set. *)
Variable category : Product.t -> option string.
(** The [getData] prop. *)
Variable getData : Product.t -> string -> string.
(** [String.prototype.toLowerCase] and [String.prototype.trim]. *)
Variable toLowerCase : string -> string.
Variable trim : string -> string.

(** [cats.add(c)] on a [Set], which keeps insertion order. *)
Definition set_add (c : string) (cats : list string) : list string :=
  if bool_decide (c ∈ cats) then cats else cats ++ [c].

(** The [forEach] that fills [cats]. *)
Definition collectCategories (products : list Product.t) : list string :=
  fold_left (fun cats p =>
               match category p with
               | Some c =>
                   if nonEmpty c && negb (String.eqb (trim c) "")
                   then set_add (trim c) cats
                   else cats
               | None => cats
               end) products [].

(** [.sort()] with the default comparison, on distinct strings. *)
Fixpoint insert_sorted (c : string) (l : list string) : list string :=
  match l with
  | [] => [c]
  | d :: rest => if String.leb c d then c :: d :: rest else d :: insert_sorted c rest
  end.

Definition sort (l : list string) : list string :=
  fold_right insert_sorted [] l.

(** [Array.from(cats).sort()] *)
Definition dynamicCategories (products : list Product.t) : list string :=
  sort (collectCategories products).

(** A product contributes the category [c] to the bar. *)
Definition offers (c : string) (p : Product.t) : Prop :=
  exists raw, category p = Some raw /\ raw <> ""%string /\
              trim raw <> ""%string /\ c = trim raw.

(** The predicate passed to [products.filter]. *)
Definition shown (selectedCategory searchQuery : string) (p : Product.t) : bool :=
  let title := toLowerCase (getData p "title") in
  let desc := toLowerCase (getData p "description_short") in
  let query := toLowerCase searchQuery in
  if nonEmpty query && negb (includes title query) && negb (includes desc query)
  then false
  else if String.eqb selectedCategory "all" then true
  else match category p with
       | Some c => String.eqb c selectedCategory
       | None => false
       end.

Definition filteredProducts (products : list Product.t)
           (selectedCategory searchQuery : string) : list Product.t :=
  List.filter (shown selectedCategory searchQuery) products.
End Defs.
End Marketplace.

(** ** Article search ([ArticlesModal]) *)

Module ArticlesModal.
Section Defs.
(** [_getData]: the [getData] prop, or plain field access. *)
Variable _getData : Article.t -> string -> option string.
Variable toLowerCase : string -> string.

(** [_getData(a, field)?.toLowerCase() || ''] *)
Definition lowered (a : Article.t) (field : string) : string :=
  match _getData a field with
  | Some s => toLowerCase s
  | None => ""%string
  end.

Definition filteredArticles (articles : list Article.t) (searchQuery : string)
  : list Article.t :=
  if nonEmpty searchQuery then
    let lowerQ := toLowerCase searchQuery in
    List.filter (fun a => includes (lowered a "title") lowerQ
                          || includes (lowered a "description") lowerQ) articles
  else articles.
End Defs.
End ArticlesModal.

(** ** Sample instances for the shop and the article search *)

Definition lower_ascii (c : Ascii.ascii) : Ascii.ascii :=
  let n := Ascii.N_of_ascii c in
  if ((65 <=? n) && (n <=? 90))%N then Ascii.ascii_of_N (n + 32) else c.

(** [toLowerCase] on strings of ASCII characters. *)
Fixpoint lower_string (s : string) : string :=
  match s with
  | EmptyString => EmptyString
  | String c rest => String (lower_ascii c) (lower_string rest)
  end.

Fixpoint drop_spaces (s : string) : string :=
  match s with
  | String " "%char rest => drop_spaces rest
  | _ => s
  end.

(** [trim] on strings whose only white space is the space character. *)
Definition trim_spaces (s : string) : string :=
  String.rev (drop_spaces (String.rev (drop_spaces s))).

Definition knife : Product.t :=
  {| Product.id := 13; Product.title := "Rope Knife"; Product.price := 30 |}.

Definition shop_products : list Product.t := [rope; shears; knife].

Definition shop_category (p : Product.t) : option string :=
  if Product.id p =? 11 then Some "rope"%string
  else if Product.id p =? 12 then Some "tools"%string
  else if Product.id p =? 13 then Some "tools"%string
  else None.

Definition shop_getData (p : Product.t) (field : string) : string :=
  if String.eqb field "title" then Product.title p else ""%string.

Definition article_getData (a : Article.t) (field : string) : option string :=
  if String.eqb field "title" then Some (Article.title a) else None.

(** * Lemmas *)

(** ** First loop *)

Section FirstLoop.
Variable configIds : list (option Z).
Variable articles : list Article.t.

Local Abbreviation res := (resolve configIds articles).
Local Abbreviation pass1 := (fill_fixed configIds articles).

Lemma fixed_step_resolve st i :
  fixed_step configIds articles st i =
    match res i with
    | Some a => (js_set (fst st) i a, {[Article.id a]} ∪ snd st)
    | None => st
    end.
Proof.
  unfold fixed_step, res.
  destruct (js_get configIds i) as [n|]; simpl; [|reflexivity].
  destruct (negb (n =? 0)); simpl; [|reflexivity].
  destruct (find_article articles n); reflexivity.
Qed.

Lemma fill_fixed_unfold :
  pass1 =
    fold_left (fun st i =>
                 match res i with
                 | Some a => (js_set (fst st) i a, {[Article.id a]} ∪ snd st)
                 | None => st
                 end) [0; 1; 2; 3]%nat ([], ∅).
Proof.
  unfold fill_fixed. simpl. now rewrite !fixed_step_resolve.
Qed.

Lemma fill_fixed_get i :
  (i < 4)%nat -> js_get (fst pass1) i = res i.
Proof.
  intros Hi. rewrite fill_fixed_unfold. simpl.
  destruct (res 0) eqn:E0, (res 1) eqn:E1,
           (res 2) eqn:E2, (res 3) eqn:E3;
    do 4 (destruct i as [|i]; [cbn; congruence|]); lia.
Qed.

Lemma fill_fixed_length : (length (fst pass1) <= 4)%nat.
Proof.
  rewrite fill_fixed_unfold. simpl.
  destruct (res 0), (res 1), (res 2), (res 3); simpl; lia.
Qed.

Lemma elem_of_usedIds x :
  (x ∈ usedIds configIds articles) <->
  exists i a, (i < 4)%nat /\ res i = Some a /\ Article.id a = x.
Proof.
  unfold usedIds. rewrite fill_fixed_unfold. simpl.
  split.
  - destruct (res 0) eqn:E0, (res 1) eqn:E1,
             (res 2) eqn:E2, (res 3) eqn:E3; simpl;
      rewrite ?elem_of_union, ?elem_of_singleton, ?elem_of_empty;
      intros H; decompose [or] H; try contradiction; subst x;
      first [ exists 0%nat; eexists; split; [lia|split; [eassumption|reflexivity]]
            | exists 1%nat; eexists; split; [lia|split; [eassumption|reflexivity]]
            | exists 2%nat; eexists; split; [lia|split; [eassumption|reflexivity]]
            | exists 3%nat; eexists; split; [lia|split; [eassumption|reflexivity]] ].
  - intros (i & a & Hi & Hr & <-).
    do 4 (destruct i as [|i];
          [rewrite Hr; simpl;
           destruct (res 0), (res 1), (res 2), (res 3);
           simpl; set_solver|]).
    lia.
Qed.
End FirstLoop.

Lemma fill_fixed_none (configIds : list (option Z)) (articles : list Article.t) :
  (forall i, (i < 4)%nat -> resolve configIds articles i = None) ->
  fill_fixed configIds articles = ([], ∅).
Proof.
  intros H. rewrite fill_fixed_unfold. simpl.
  now rewrite !H by lia.
Qed.

Lemma fill_fixed_ext (ids1 ids2 : list (option Z)) (articles : list Article.t) :
  (forall i, (i < 4)%nat -> resolve ids1 articles i = resolve ids2 articles i) ->
  fill_fixed ids1 articles = fill_fixed ids2 articles.
Proof.
  intros H. rewrite !fill_fixed_unfold. simpl.
  now rewrite !H by lia.
Qed.

(** ** Second loop *)

Section SecondLoop.
Variable configIds : list (option Z).
Variable articles : list Article.t.

Local Abbreviation queue := (fillers configIds articles).

(** Whatever the first loop left behind (within the four slots), the
    second loop returns four defined entries: the article already there,
    or the next filler, or the fallback. *)
Lemma fill_empty_spec (result : list (option Article.t)) :
  (length result <= 4)%nat ->
  fst (fill_empty configIds articles result) =
    [ Some (slotValue configIds articles result 0);
      Some (slotValue configIds articles result 1);
      Some (slotValue configIds articles result 2);
      Some (slotValue configIds articles result 3) ].
Proof.
  intros Hlen.
  unfold fill_empty, slotValue, secondPass, emptyBefore, filler_step.
  generalize queue as q. intros q.
  destruct result as [|[x0|] [|[x1|] [|[x2|] [|[x3|] [|? ?]]]]];
    simpl in Hlen; try lia;
    destruct q as [|f0 [|f1 [|f2 [|f3 q]]]]; reflexivity.
Qed.

Lemma currentRelatedArticles_spec :
  currentRelatedArticles configIds articles =
    [ Some (slotValue configIds articles (fst (fill_fixed configIds articles)) 0);
      Some (slotValue configIds articles (fst (fill_fixed configIds articles)) 1);
      Some (slotValue configIds articles (fst (fill_fixed configIds articles)) 2);
      Some (slotValue configIds articles (fst (fill_fixed configIds articles)) 3) ].
Proof.
  unfold currentRelatedArticles. apply fill_empty_spec, fill_fixed_length.
Qed.

Lemma currentRelatedArticles_lookup i :
  (i < 4)%nat ->
  currentRelatedArticles configIds articles !! i =
    Some (Some (slotValue configIds articles (fst (fill_fixed configIds articles)) i)).
Proof.
  intros Hi. rewrite currentRelatedArticles_spec.
  do 4 (destruct i as [|i]; [reflexivity|]). lia.
Qed.

Lemma slot_resolved i a :
  (i < 4)%nat ->
  resolve configIds articles i = Some a ->
  currentRelatedArticles configIds articles !! i = Some (Some a).
Proof.
  intros Hi Hr. rewrite currentRelatedArticles_lookup by assumption.
  unfold slotValue. now rewrite fill_fixed_get, Hr.
Qed.

Lemma slot_unresolved i :
  (i < 4)%nat ->
  resolve configIds articles i = None ->
  currentRelatedArticles configIds articles !! i =
    Some (Some (secondPass configIds articles
                  (emptyBefore (fst (fill_fixed configIds articles)) i))).
Proof.
  intros Hi Hr. rewrite currentRelatedArticles_lookup by assumption.
  unfold slotValue. now rewrite fill_fixed_get, Hr.
Qed.
End SecondLoop.

(** ** Facts about [find] and the filler queue *)

Lemma find_article_Some (articles : list Article.t) (n : Z) (a : Article.t) :
  find_article articles n = Some a -> a ∈ articles /\ Article.id a = n.
Proof.
  unfold find_article. intros H. apply find_some in H as [Hin Heq].
  split; [now apply list_elem_of_In | now apply Z.eqb_eq].
Qed.

Lemma find_article_unique (articles : list Article.t) (a : Article.t) :
  NoDup (Article.id <$> articles) ->
  a ∈ articles ->
  find_article articles (Article.id a) = Some a.
Proof.
  unfold find_article. induction articles as [|b l IH]; intros Hnd Hin.
  - now apply elem_of_nil in Hin.
  - rewrite fmap_cons in Hnd. apply NoDup_cons in Hnd as [Hb Hl].
    simpl. destruct (Article.id b =? Article.id a) eqn:E.
    + apply Z.eqb_eq in E. apply elem_of_cons in Hin as [->|Hin]; [reflexivity|].
      exfalso. apply Hb. rewrite E. now apply list_elem_of_fmap_2.
    + apply elem_of_cons in Hin as [->|Hin]; [now rewrite Z.eqb_refl in E|].
      now apply IH.
Qed.

Lemma elem_of_fillers (configIds : list (option Z)) (articles : list Article.t)
      (a : Article.t) :
  (a ∈ fillers configIds articles) <->
  (Article.id a ∉ usedIds configIds articles) /\ (a ∈ articles).
Proof.
  exact (list_elem_of_filter
           (fun b => Article.id b ∉ usedIds configIds articles) articles a).
Qed.

Lemma filter_all {A : Type} (P : A -> Prop) `{forall x, Decision (P x)} (l : list A) :
  (forall x, x ∈ l -> P x) -> filter P l = l.
Proof.
  induction l as [|x l IH]; intros Hall; [reflexivity|].
  rewrite filter_cons_True by apply Hall, list_elem_of_here.
  f_equal. apply IH. intros y Hy. now apply Hall, list_elem_of_further.
Qed.

Lemma fillers_no_used (configIds : list (option Z)) (articles : list Article.t) :
  usedIds configIds articles = ∅ -> fillers configIds articles = articles.
Proof.
  unfold fillers. intros ->. apply filter_all.
  intros a _. apply not_elem_of_empty.
Qed.

(** With unique ids, taking one article out of the queue shortens it by
    exactly one. *)
Lemma length_filter_other (s : gset Z) (articles : list Article.t) (a : Article.t) :
  NoDup (Article.id <$> articles) ->
  a ∈ articles ->
  (forall x, (x ∈ s) <-> x = Article.id a) ->
  S (length (filter (fun b => Article.id b ∉ s) articles)) = length articles.
Proof.
  intros Hnd Hin Hs. induction articles as [|b l IH].
  - now apply elem_of_nil in Hin.
  - rewrite fmap_cons in Hnd. apply NoDup_cons in Hnd as [Hb Hl].
    destruct (decide (Article.id b = Article.id a)) as [E|E].
    + rewrite filter_cons_False by (intros Hn; apply Hn, Hs, E).
      simpl. f_equal.
      assert (Hall : filter (fun c => Article.id c ∉ s) l = l).
      { apply filter_all. intros c Hc Hcs. apply Hs in Hcs.
        apply Hb. rewrite E, <- Hcs. now apply list_elem_of_fmap_2. }
      now rewrite Hall.
    + rewrite filter_cons_True by (intros Hn; apply E, Hs, Hn).
      simpl. f_equal. apply IH; [assumption|].
      apply elem_of_cons in Hin as [->|Hin]; [contradiction|assumption].
Qed.

Lemma currentRelatedArticles_ext (ids1 ids2 : list (option Z))
      (articles : list Article.t) :
  fill_fixed ids1 articles = fill_fixed ids2 articles ->
  currentRelatedArticles ids1 articles = currentRelatedArticles ids2 articles.
Proof.
  intros H.
  unfold currentRelatedArticles, fill_empty, filler_step, fillers, usedIds.
  now rewrite H.
Qed.

(** The grid always has four defined entries. *)
Lemma currentRelatedArticles_four (configIds : list (option Z))
      (articles : list Article.t) :
  exists s0 s1 s2 s3,
    currentRelatedArticles configIds articles = [Some s0; Some s1; Some s2; Some s3].
Proof. rewrite currentRelatedArticles_spec. eauto. Qed.

Lemma resolve_falsy (configIds : list (option Z)) (articles : list Article.t) i :
  truthy (js_get configIds i) = false -> resolve configIds articles i = None.
Proof. unfold resolve. now intros ->. Qed.

Lemma resolve_truthy (configIds : list (option Z)) (articles : list Article.t) i n :
  js_get configIds i = Some n -> n <> 0 ->
  resolve configIds articles i = find_article articles n.
Proof.
  unfold resolve. intros -> Hn. simpl.
  apply Z.eqb_neq in Hn. now rewrite Hn.
Qed.

(** * Theorems about the related-article slots *)

(** C2.  Whatever the lesson's preferred ids are, and for every article
    collection with at least one article, [currentRelatedArticles] has
    exactly four entries, each of them an article (no hole is left). *)
Theorem grid_has_exactly_four_entries
        (configIds : list (option Z)) (articles : list Article.t) :
  articles <> [] ->
  length (currentRelatedArticles configIds articles) = 4%nat /\
  exists s0 s1 s2 s3,
    currentRelatedArticles configIds articles = [Some s0; Some s1; Some s2; Some s3].
Proof.
  intros _.
  destruct (currentRelatedArticles_four configIds articles)
    as (s0 & s1 & s2 & s3 & E).
  split; [now rewrite E | eauto].
Qed.

Lemma grid_has_exactly_four_entries_witness :
  length (currentRelatedArticles [Some 3; None; Some 9] sample_articles) = 4%nat /\
  exists s0 s1 s2 s3,
    currentRelatedArticles [Some 3; None; Some 9] sample_articles
    = [Some s0; Some s1; Some s2; Some s3].
Proof.
  apply (grid_has_exactly_four_entries [Some 3; None; Some 9] sample_articles).
  discriminate.
Defined.

(** C5.  With an empty article collection every slot holds the
    placeholder [{ id: 0, title: 'No Article', url: '#' }], whatever the
    preferred ids are. *)
Theorem empty_collection_gives_placeholders (configIds : list (option Z)) :
  currentRelatedArticles configIds [] = replicate 4 (Some NoArticle) /\
  Article.id NoArticle = 0 /\
  Article.title NoArticle = "No Article"%string.
Proof.
  split; [|split; reflexivity].
  assert (H : fill_fixed configIds [] = ([], ∅)).
  { apply fill_fixed_none. intros i _. unfold resolve.
    destruct (truthy (js_get configIds i)); [|reflexivity].
    now destruct (js_get configIds i). }
  unfold currentRelatedArticles, fill_empty, filler_step, fillers.
  rewrite H. reflexivity.
Qed.

(** C7.  With unique ids, at least four articles and no usable preferred
    id in the first four positions (the list is empty, or every entry
    there is missing or falsy), the grid is the first four articles of the
    collection: four pairwise distinct articles, all from the collection. *)
Theorem no_preferred_ids_gives_four_distinct
        (configIds : list (option Z)) (articles : list Article.t) :
  NoDup (Article.id <$> articles) ->
  (4 <= length articles)%nat ->
  (forall i, (i < 4)%nat -> truthy (js_get configIds i) = false) ->
  exists s0 s1 s2 s3,
    currentRelatedArticles configIds articles = [Some s0; Some s1; Some s2; Some s3] /\
    [s0; s1; s2; s3] = take 4 articles /\
    NoDup [s0; s1; s2; s3] /\
    NoDup (Article.id <$> [s0; s1; s2; s3]) /\
    (forall s, s ∈ [s0; s1; s2; s3] -> s ∈ articles).
Proof.
  intros Hnd Hlen Habs.
  assert (H : fill_fixed configIds articles = ([], ∅)).
  { apply fill_fixed_none. intros i Hi. now apply resolve_falsy, Habs. }
  assert (Hq : fillers configIds articles = articles).
  { apply fillers_no_used. unfold usedIds. now rewrite H. }
  destruct articles as [|s0 [|s1 [|s2 [|s3 rest]]]]; simpl in Hlen; try lia.
  exists s0, s1, s2, s3.
  assert (Hids : NoDup (Article.id <$> [s0; s1; s2; s3])).
  { change (s0 :: s1 :: s2 :: s3 :: rest) with ([s0; s1; s2; s3] ++ rest) in Hnd.
    rewrite fmap_app in Hnd. now apply NoDup_app in Hnd as [? _]. }
  repeat split.
  - rewrite currentRelatedArticles_spec, H.
    unfold slotValue, secondPass. rewrite Hq. reflexivity.
  - now apply NoDup_fmap_1 in Hids.
  - exact Hids.
  - intros s Hs. change (s0 :: s1 :: s2 :: s3 :: rest) with ([s0; s1; s2; s3] ++ rest).
    apply elem_of_app. now left.
Qed.

Lemma no_preferred_ids_gives_four_distinct_witness :
  exists s0 s1 s2 s3,
    currentRelatedArticles [None; Some 0] sample_articles
    = [Some s0; Some s1; Some s2; Some s3] /\
    [s0; s1; s2; s3] = take 4 sample_articles /\
    NoDup [s0; s1; s2; s3] /\
    NoDup (Article.id <$> [s0; s1; s2; s3]) /\
    (forall s, s ∈ [s0; s1; s2; s3] -> s ∈ sample_articles).
Proof.
  apply (no_preferred_ids_gives_four_distinct [None; Some 0] sample_articles).
  - apply (bool_decide_unpack _). vm_compute. reflexivity.
  - simpl. lia.
  - intros i Hi. do 4 (destruct i as [|i]; [reflexivity|]). lia.
Defined.

(** C6, as the code has it.  With unique ids, at least four articles, and
    an article [a] of the collection whose id is not [0], the preferred
    list [[a.id]] puts [a] in slot 0, and slots 1 to 3 hold articles of the
    collection that differ from [a]. *)
Theorem single_preferred_id_pins_slot_zero
        (articles : list Article.t) (a : Article.t) :
  NoDup (Article.id <$> articles) ->
  (4 <= length articles)%nat ->
  a ∈ articles ->
  Article.id a <> 0 ->
  currentRelatedArticles [Some (Article.id a)] articles !! 0%nat = Some (Some a) /\
  forall k, (1 <= k < 4)%nat ->
    exists b,
      currentRelatedArticles [Some (Article.id a)] articles !! k = Some (Some b) /\
      b <> a /\ Article.id b <> Article.id a /\ b ∈ articles.
Proof.
  intros Hnd Hlen Hin Hid.
  set (ids := [Some (Article.id a)]).
  assert (R0 : resolve ids articles 0 = Some a).
  { rewrite (resolve_truthy ids articles 0 (Article.id a)) by easy.
    now apply find_article_unique. }
  assert (Rk : forall k, (1 <= k)%nat -> resolve ids articles k = None).
  { intros k Hk. apply resolve_falsy. destruct k as [|k]; [lia|].
    unfold js_get, ids. simpl. now destruct k. }
  assert (Hused : forall x, (x ∈ usedIds ids articles) <-> x = Article.id a).
  { intros x. rewrite elem_of_usedIds. split.
    - intros (i & b & Hi & Hr & <-). destruct i as [|i].
      + rewrite R0 in Hr. now inversion Hr.
      + rewrite Rk in Hr by lia. discriminate.
    - intros ->. exists 0%nat, a. repeat split; [lia|assumption]. }
  assert (Hq : (3 <= length (fillers ids articles))%nat).
  { pose proof (length_filter_other (usedIds ids articles) articles a Hnd Hin Hused) as L.
    unfold fillers. lia. }
  split; [apply slot_resolved; [lia|exact R0]|].
  intros k Hk.
  assert (Hslot : currentRelatedArticles ids articles !! k =
                  Some (Some (secondPass ids articles (k - 1)))).
  { rewrite slot_unresolved by (try apply Rk; lia). do 2 f_equal.
    unfold emptyBefore, is_hole.
    destruct k as [|[|[|[|k]]]]; try lia; simpl;
      rewrite !fill_fixed_get by lia; rewrite R0, ?Rk by lia; reflexivity. }
  unfold secondPass in Hslot.
  destruct (fillers ids articles !! (k - 1)%nat) as [b|] eqn:Eb.
  - exists b. split; [exact Hslot|].
    apply list_elem_of_lookup_2, elem_of_fillers in Eb as [Hb Hbin].
    rewrite Hused in Hb. repeat split; [congruence|assumption|assumption].
  - apply lookup_ge_None in Eb. lia.
Qed.

Lemma single_preferred_id_pins_slot_zero_witness :
  currentRelatedArticles [Some 3] sample_articles !! 0%nat
  = Some (Some (art 3 "safety")) /\
  forall k, (1 <= k < 4)%nat ->
    exists b,
      currentRelatedArticles [Some 3] sample_articles !! k = Some (Some b) /\
      b <> art 3 "safety" /\ Article.id b <> 3 /\ b ∈ sample_articles.
Proof.
  apply (single_preferred_id_pins_slot_zero sample_articles (art 3 "safety")).
  - apply (bool_decide_unpack _). vm_compute. reflexivity.
  - simpl. lia.
  - apply (bool_decide_unpack _). vm_compute. reflexivity.
  - discriminate.
Defined.

(** C6 as stated fails for an article whose id is [0]: the first loop skips
    the falsy id, slot 0 receives the first filler, and the article itself
    turns up in slot 1. *)
Lemma single_preferred_id_zero_counterexample :
  NoDup (Article.id <$> zero_articles) /\
  (4 <= length zero_articles)%nat /\
  art 0 "draft" ∈ zero_articles /\
  currentRelatedArticles [Some (Article.id (art 0 "draft"))] zero_articles
  = [Some (art 5 "glossary"); Some (art 0 "draft");
     Some (art 6 "anatomy"); Some (art 7 "frictions")] /\
  currentRelatedArticles [Some (Article.id (art 0 "draft"))] zero_articles !! 0%nat
  <> Some (Some (art 0 "draft")) /\
  ~ (forall k, (1 <= k < 4)%nat ->
       exists b,
         currentRelatedArticles [Some (Article.id (art 0 "draft"))] zero_articles !! k
         = Some (Some b) /\ b <> art 0 "draft").
Proof.
  split; [apply (bool_decide_unpack _); vm_compute; reflexivity|].
  split; [simpl; lia|].
  split; [apply (bool_decide_unpack _); vm_compute; reflexivity|].
  split; [vm_compute; reflexivity|].
  split; [vm_compute; discriminate|].
  intros H. destruct (H 1%nat) as (b & Hb & Hne); [lia|].
  vm_compute in Hb. inversion Hb. subst b. now apply Hne.
Qed.

(** C1, as the code has it.  The first loop looks a preferred id up in the
    collection and never consults [usedIds], so an id that resolves to an
    article and sits at two indices [i < j < 4] is placed at both slots;
    the article is kept out of the filler queue, and both slots of the
    returned grid hold it. *)
Theorem duplicate_preferred_id_fills_both_slots
        (configIds : list (option Z)) (articles : list Article.t)
        (i j : nat) (n : Z) (a : Article.t) :
  (i < j)%nat -> (j < 4)%nat ->
  js_get configIds i = Some n ->
  js_get configIds j = Some n ->
  n <> 0 ->
  find_article articles n = Some a ->
  js_get (fst (fill_fixed configIds articles)) i = Some a /\
  js_get (fst (fill_fixed configIds articles)) j = Some a /\
  currentRelatedArticles configIds articles !! i = Some (Some a) /\
  currentRelatedArticles configIds articles !! j = Some (Some a) /\
  a ∉ fillers configIds articles.
Proof.
  intros Hij Hj Hi' Hj' Hn Hfind.
  assert (Ri : resolve configIds articles i = Some a)
    by now rewrite (resolve_truthy _ _ _ n).
  assert (Rj : resolve configIds articles j = Some a)
    by now rewrite (resolve_truthy _ _ _ n).
  repeat split.
  - rewrite fill_fixed_get by lia. exact Ri.
  - rewrite fill_fixed_get by lia. exact Rj.
  - apply slot_resolved; [lia|exact Ri].
  - apply slot_resolved; [lia|exact Rj].
  - rewrite elem_of_fillers. intros [Hnot _]. apply Hnot.
    apply elem_of_usedIds. exists i, a. repeat split; [lia|exact Ri].
Qed.

Lemma duplicate_preferred_id_fills_both_slots_witness :
  js_get (fst (fill_fixed duplicate_ids sample_articles)) 0 = Some (art 1 "knots") /\
  js_get (fst (fill_fixed duplicate_ids sample_articles)) 1 = Some (art 1 "knots") /\
  currentRelatedArticles duplicate_ids sample_articles !! 0%nat
  = Some (Some (art 1 "knots")) /\
  currentRelatedArticles duplicate_ids sample_articles !! 1%nat
  = Some (Some (art 1 "knots")) /\
  art 1 "knots" ∉ fillers duplicate_ids sample_articles.
Proof.
  apply (duplicate_preferred_id_fills_both_slots
           duplicate_ids sample_articles 0 1 1 (art 1 "knots"));
    first [lia | reflexivity | discriminate].
Defined.

(** C1 as stated fails: with the id 1 at indices 0 and 1, the first loop
    does store the article at index 1, and the entry of the grid at index
    1 is that article, which is not in the filler queue. *)
Lemma duplicate_preferred_id_counterexample :
  js_get duplicate_ids 0 = Some 1 /\
  js_get duplicate_ids 1 = Some 1 /\
  find_article sample_articles 1 = Some (art 1 "knots") /\
  js_get (fst (fill_fixed duplicate_ids sample_articles)) 1 <> None /\
  currentRelatedArticles duplicate_ids sample_articles
  = [Some (art 1 "knots"); Some (art 1 "knots");
     Some (art 2 "rope care"); Some (art 3 "safety")] /\
  ~ (exists f, f ∈ fillers duplicate_ids sample_articles /\
               currentRelatedArticles duplicate_ids sample_articles !! 1%nat
               = Some (Some f)).
Proof.
  do 3 (split; [reflexivity|]).
  split; [vm_compute; discriminate|].
  split; [vm_compute; reflexivity|].
  intros (f & Hf & Hslot).
  vm_compute in Hslot. inversion Hslot. subst f.
  apply elem_of_fillers in Hf as [Hnot _]. apply Hnot.
  apply (bool_decide_unpack _). vm_compute. reflexivity.
Qed.

(** C8.  In a non-empty collection, an empty slot reached after the filler
    queue has run out (at least as many empty slots before it as there are
    fillers) receives [articles[0]]. *)
Theorem exhausted_queue_repeats_first_article
        (configIds : list (option Z)) (articles : list Article.t) (i : nat) :
  articles <> [] ->
  (i < 4)%nat ->
  js_get (fst (fill_fixed configIds articles)) i = None ->
  (length (fillers configIds articles)
   <= emptyBefore (fst (fill_fixed configIds articles)) i)%nat ->
  exists first,
    articles !! 0%nat = Some first /\
    currentRelatedArticles configIds articles !! i = Some (Some first).
Proof.
  intros Hne Hi Hhole Hex.
  destruct articles as [|first rest] eqn:Ea; [contradiction|].
  rewrite <- Ea in *.
  exists first. split; [now rewrite Ea|].
  rewrite currentRelatedArticles_lookup by assumption.
  unfold slotValue, secondPass. rewrite Hhole.
  apply lookup_ge_None in Hex. rewrite Hex.
  unfold fallback. now rewrite Ea.
Qed.

Lemma exhausted_queue_repeats_first_article_witness :
  (exists first,
      take 3 sample_articles !! 0%nat = Some first /\
      currentRelatedArticles sparse_ids (take 3 sample_articles) !! 3%nat
      = Some (Some first)) /\
  currentRelatedArticles sparse_ids (take 3 sample_articles)
  = [Some (art 1 "knots"); Some (art 2 "rope care");
     Some (art 3 "safety"); Some (art 1 "knots")].
Proof.
  split; [|vm_compute; reflexivity].
  apply (exhausted_queue_repeats_first_article sparse_ids (take 3 sample_articles) 3).
  - discriminate.
  - lia.
  - vm_compute. reflexivity.
  - vm_compute. lia.
Defined.

Lemma resolve_insert_hole (configIds : list (option Z)) (articles : list Article.t)
      (i j : nat) :
  truthy (js_get configIds i) = false ->
  resolve (<[i := None]> configIds) articles j = resolve configIds articles j.
Proof.
  intros Hf. destruct (decide (i = j)) as [<-|Hne].
  - rewrite (resolve_falsy configIds) by assumption.
    apply resolve_falsy. unfold js_get.
    destruct (decide (i < length configIds)%nat) as [Hlt|Hge].
    + now rewrite list_lookup_insert_eq.
    + rewrite list_insert_ge by lia. exact Hf.
  - unfold resolve, js_get. now rewrite list_lookup_insert_ne.
Qed.

(** C10.  The first loop tests the preferred id with [if (id)], so an
    entry that is [0] (or missing) in one of the first four positions is
    skipped even when the collection has an article with id [0]: the first
    loop leaves that slot empty, the second loop fills it with the next
    filler (the fallback once the queue has run out), and the grid is the
    one obtained with the entry absent. *)
Theorem falsy_preferred_id_is_absent
        (configIds : list (option Z)) (articles : list Article.t) (i : nat) :
  (i < 4)%nat ->
  truthy (js_get configIds i) = false ->
  js_get (fst (fill_fixed configIds articles)) i = None /\
  currentRelatedArticles configIds articles !! i =
    Some (Some (secondPass configIds articles
                  (emptyBefore (fst (fill_fixed configIds articles)) i))) /\
  (forall f,
      fillers configIds articles
        !! emptyBefore (fst (fill_fixed configIds articles)) i = Some f ->
      currentRelatedArticles configIds articles !! i = Some (Some f)) /\
  currentRelatedArticles configIds articles
  = currentRelatedArticles (<[i := None]> configIds) articles.
Proof.
  intros Hi Hf.
  pose proof (resolve_falsy configIds articles i Hf) as Hr.
  assert (Hslot := slot_unresolved configIds articles i Hi Hr).
  repeat split.
  - now rewrite fill_fixed_get.
  - exact Hslot.
  - intros f Hq. rewrite Hslot. unfold secondPass. now rewrite Hq.
  - apply currentRelatedArticles_ext, fill_fixed_ext.
    intros j _. symmetry. now apply resolve_insert_hole.
Qed.

Lemma falsy_preferred_id_is_absent_witness :
  find_article zero_articles 0 = Some (art 0 "draft") /\
  js_get zero_first_ids 0 = Some 0 /\
  currentRelatedArticles zero_first_ids zero_articles
  = [Some (art 5 "glossary"); Some (art 6 "anatomy");
     Some (art 0 "draft"); Some (art 7 "frictions")] /\
  js_get (fst (fill_fixed zero_first_ids zero_articles)) 0 = None /\
  currentRelatedArticles zero_first_ids zero_articles !! 0%nat =
    Some (Some (secondPass zero_first_ids zero_articles
                  (emptyBefore (fst (fill_fixed zero_first_ids zero_articles)) 0))) /\
  (forall f,
      fillers zero_first_ids zero_articles
        !! emptyBefore (fst (fill_fixed zero_first_ids zero_articles)) 0 = Some f ->
      currentRelatedArticles zero_first_ids zero_articles !! 0%nat = Some (Some f)) /\
  currentRelatedArticles zero_first_ids zero_articles
  = currentRelatedArticles (<[0%nat := None]> zero_first_ids) zero_articles.
Proof.
  do 2 (split; [reflexivity|]).
  split; [vm_compute; reflexivity|].
  apply (falsy_preferred_id_is_absent zero_first_ids zero_articles 0);
    [lia | reflexivity].
Defined.

(** * The cart *)

Section CartLemmas.
Variable productId : Z.

Lemma find_none_no_entry (cart : Cart) :
  List.find (fun item => item_id item =? productId) cart = None ->
  no_entry productId cart.
Proof.
  induction cart as [|it l IH]; simpl; intros H; [constructor|].
  destruct (item_id it =? productId) eqn:E; [discriminate|].
  constructor; [now apply Z.eqb_neq | now apply IH].
Qed.

Lemma no_entry_not_in (cart : Cart) :
  no_entry productId cart <-> ~ In productId (List.map item_id cart).
Proof.
  unfold no_entry. induction cart as [|it l IH]; simpl.
  - split; [tauto | constructor].
  - rewrite List.Forall_cons_iff, IH. tauto.
Qed.

Lemma updateCartQuantity_ids (delta : Z) (cart : Cart) :
  List.map item_id (updateCartQuantity productId delta cart) = List.map item_id cart.
Proof.
  induction cart as [|it l IH]; simpl; [reflexivity|]. f_equal; [|exact IH].
  destruct (item_id it =? productId); [|reflexivity].
  now destruct (CartItem.quantity it + delta <? 1).
Qed.

Lemma updateCartQuantity_positive (delta : Z) (cart : Cart) :
  quantities_positive cart ->
  quantities_positive (updateCartQuantity productId delta cart).
Proof.
  unfold quantities_positive. induction 1 as [|it l Hit Hl IH]; simpl; constructor;
    [|exact IH].
  destruct (item_id it =? productId); [|exact Hit].
  destruct (CartItem.quantity it + delta <? 1) eqn:E; [exact Hit|].
  simpl. now apply Z.ltb_ge in E.
Qed.

Lemma updateCartQuantity_no_entry (delta : Z) (cart : Cart) :
  no_entry productId cart -> updateCartQuantity productId delta cart = cart.
Proof.
  unfold no_entry. induction 1 as [|it l Hit Hl IH]; simpl; [reflexivity|].
  apply Z.eqb_neq in Hit. now rewrite Hit, IH.
Qed.

Lemma removeFromCart_ids_subset (cart : Cart) (x : Z) :
  In x (List.map item_id (removeFromCart productId cart)) ->
  In x (List.map item_id cart).
Proof.
  rewrite !in_map_iff. intros (it & Hx & Hin).
  apply List.filter_In in Hin as [Hin _]. eauto.
Qed.

Lemma removeFromCart_unique (cart : Cart) :
  ids_unique cart -> ids_unique (removeFromCart productId cart).
Proof.
  unfold ids_unique. induction cart as [|it l IH]; simpl; intros Hnd; [constructor|].
  apply List.NoDup_cons_iff in Hnd as [Hit Hl].
  destruct (negb (item_id it =? productId)); simpl; [|now apply IH].
  apply List.NoDup_cons; [|now apply IH].
  intros Hin. now apply Hit, removeFromCart_ids_subset.
Qed.

Lemma removeFromCart_positive (cart : Cart) :
  quantities_positive cart -> quantities_positive (removeFromCart productId cart).
Proof.
  unfold quantities_positive, removeFromCart. rewrite !List.Forall_forall.
  intros H it Hin. apply List.filter_In in Hin as [Hin _]. now apply H.
Qed.

Lemma removeFromCart_no_entry (cart : Cart) :
  no_entry productId cart -> removeFromCart productId cart = cart.
Proof.
  unfold no_entry. induction 1 as [|it l Hit Hl IH]; simpl; [reflexivity|].
  apply Z.eqb_neq in Hit. rewrite Hit. simpl. now rewrite IH.
Qed.

Lemma removeFromCart_removes (cart : Cart) :
  no_entry productId (removeFromCart productId cart).
Proof.
  unfold no_entry, removeFromCart. apply List.Forall_forall. intros it Hin.
  apply List.filter_In in Hin as [_ Hne].
  apply negb_true_iff in Hne. now apply Z.eqb_neq.
Qed.
End CartLemmas.

Lemma addToCart_unique (product : Product.t) (cart : Cart) :
  ids_unique cart -> ids_unique (addToCart product cart).
Proof.
  unfold ids_unique, addToCart. intros Hnd.
  destruct (List.find _ cart) eqn:E.
  - rewrite List.map_map.
    erewrite List.map_ext; [exact Hnd|].
    intros it. simpl. now destruct (item_id it =? Product.id product).
  - apply find_none_no_entry, no_entry_not_in in E.
    rewrite List.map_app. simpl.
    apply List.NoDup_app; [exact Hnd| |].
    + constructor; [intros []|constructor].
    + intros x Hx [<-|[]]. contradiction.
Qed.

Lemma addToCart_positive (product : Product.t) (cart : Cart) :
  quantities_positive cart -> quantities_positive (addToCart product cart).
Proof.
  unfold quantities_positive, addToCart. intros Hq.
  destruct (List.find _ cart).
  - induction Hq as [|it l Hit Hl IH]; simpl; constructor; [|exact IH].
    destruct (item_id it =? Product.id product); simpl; lia.
  - apply List.Forall_app. split; [exact Hq|]. constructor; [simpl; lia|constructor].
Qed.

Lemma apply_op_invariant (cart : Cart) (op : CartOp) :
  quantities_positive cart /\ ids_unique cart ->
  quantities_positive (apply_op cart op) /\ ids_unique (apply_op cart op).
Proof.
  intros [Hq Hu]. destruct op as [p|pid|pid delta]; simpl; split.
  - now apply addToCart_positive.
  - now apply addToCart_unique.
  - now apply removeFromCart_positive.
  - now apply removeFromCart_unique.
  - now apply updateCartQuantity_positive.
  - unfold ids_unique. now rewrite updateCartQuantity_ids.
Qed.

Lemma foldl_apply_op_invariant (ops : list CartOp) (cart : Cart) :
  quantities_positive cart /\ ids_unique cart ->
  quantities_positive (foldl apply_op cart ops) /\
  ids_unique (foldl apply_op cart ops).
Proof.
  revert cart. induction ops as [|op ops IH]; intros cart H; [exact H|].
  simpl. now apply IH, apply_op_invariant.
Qed.

(** C3.  Every cart reached from the empty cart by a sequence of
    [addToCart], [removeFromCart] and [updateCartQuantity] calls has all
    quantities at least 1 and no two entries with the same product id. *)
Theorem reachable_cart_invariant (ops : list CartOp) :
  quantities_positive (run_ops ops) /\ ids_unique (run_ops ops).
Proof.
  apply foldl_apply_op_invariant. split; constructor.
Qed.

Lemma updateCartQuantity_lookup (productId delta : Z) (cart : Cart) (k : nat) :
  updateCartQuantity productId delta cart !! k =
    (fun item =>
       if item_id item =? productId then
         if CartItem.quantity item + delta <? 1 then item
         else CartItem.with_quantity item (CartItem.quantity item + delta)
       else item) <$> cart !! k.
Proof.
  revert k. induction cart as [|it l IH]; intros [|k]; simpl; auto.
Qed.

(** C4.  [updateCartQuantity productId delta] leaves a cart without an
    entry for [productId] unchanged; it never removes or reorders entries;
    an entry for another product is untouched; the entry for [productId]
    is untouched when [quantity + delta < 1] and gets the quantity
    [quantity + delta] otherwise.  In particular, adding a product that is
    not yet in the cart and then applying a delta of [-5] leaves it in the
    cart with quantity 1. *)
Theorem updateCartQuantity_floor (productId delta : Z) (cart : Cart) :
  (no_entry productId cart -> updateCartQuantity productId delta cart = cart) /\
  length (updateCartQuantity productId delta cart) = length cart /\
  (forall k item,
      cart !! k = Some item ->
      (item_id item <> productId ->
       updateCartQuantity productId delta cart !! k = Some item) /\
      (item_id item = productId -> CartItem.quantity item + delta < 1 ->
       updateCartQuantity productId delta cart !! k = Some item) /\
      (item_id item = productId -> 1 <= CartItem.quantity item + delta ->
       updateCartQuantity productId delta cart !! k =
         Some (CartItem.with_quantity item (CartItem.quantity item + delta)))) /\
  (forall P,
      Product.id P = productId ->
      no_entry productId cart ->
      addToCart P cart = cart ++ [CartItem.mk P 1] /\
      updateCartQuantity productId (-5) (addToCart P cart)
      = cart ++ [CartItem.mk P 1]).
Proof.
  split; [apply updateCartQuantity_no_entry|].
  split; [apply List.length_map|].
  split.
  - intros k item Hk. rewrite updateCartQuantity_lookup, Hk. simpl.
    repeat split.
    + intros Hne. apply Z.eqb_neq in Hne. now rewrite Hne.
    + intros He Hlt. apply Z.eqb_eq in He. apply Z.ltb_lt in Hlt.
      now rewrite He, Hlt.
    + intros He Hge. apply Z.eqb_eq in He. apply Z.ltb_ge in Hge.
      now rewrite He, Hge.
  - intros P HP Hno.
    assert (Hadd : addToCart P cart = cart ++ [CartItem.mk P 1]).
    { unfold addToCart. rewrite HP.
      destruct (List.find _ cart) as [it|] eqn:E; [|reflexivity].
      apply List.find_some in E as [Hin He]. apply Z.eqb_eq in He.
      unfold no_entry in Hno. rewrite List.Forall_forall in Hno.
      now apply Hno in Hin. }
    split; [exact Hadd|]. rewrite Hadd.
    unfold updateCartQuantity. rewrite List.map_app.
    fold (updateCartQuantity productId (-5) cart).
    rewrite updateCartQuantity_no_entry by assumption.
    simpl. unfold item_id. simpl. rewrite HP, Z.eqb_refl. reflexivity.
Qed.

Lemma updateCartQuantity_floor_witness :
  updateCartQuantity 11 (-5) (addToCart rope []) = [CartItem.mk rope 1] /\
  updateCartQuantity 11 (-5) [CartItem.mk shears 2; CartItem.mk rope 7] !! 1%nat
  = Some (CartItem.mk rope 2) /\
  updateCartQuantity 11 (-5) [CartItem.mk shears 2; CartItem.mk rope 5] !! 1%nat
  = Some (CartItem.mk rope 5) /\
  updateCartQuantity 11 (-5) [CartItem.mk shears 2] = [CartItem.mk shears 2].
Proof.
  split; [|split; [|split]].
  - destruct (updateCartQuantity_floor 11 (-5) []) as (_ & _ & _ & H).
    apply (H rope); [reflexivity|constructor].
  - destruct (updateCartQuantity_floor 11 (-5)
                [CartItem.mk shears 2; CartItem.mk rope 7]) as (_ & _ & H & _).
    destruct (H 1%nat (CartItem.mk rope 7) eq_refl) as (_ & _ & Hset).
    apply Hset; [reflexivity|simpl; lia].
  - destruct (updateCartQuantity_floor 11 (-5)
                [CartItem.mk shears 2; CartItem.mk rope 5]) as (_ & _ & H & _).
    destruct (H 1%nat (CartItem.mk rope 5) eq_refl) as (_ & Hfloor & _).
    apply Hfloor; [reflexivity|simpl; lia].
  - destruct (updateCartQuantity_floor 11 (-5) [CartItem.mk shears 2]) as (H & _).
    apply H. constructor; [discriminate|constructor].
Defined.

(** C9.  [removeFromCart] is idempotent, and it leaves a cart without an
    entry for the product unchanged. *)
Theorem removeFromCart_idempotent (productId : Z) (cart : Cart) :
  removeFromCart productId (removeFromCart productId cart)
  = removeFromCart productId cart /\
  (no_entry productId cart -> removeFromCart productId cart = cart).
Proof.
  split.
  - apply removeFromCart_no_entry, removeFromCart_removes.
  - apply removeFromCart_no_entry.
Qed.

Lemma removeFromCart_idempotent_witness :
  removeFromCart 11 (removeFromCart 11 [CartItem.mk rope 3; CartItem.mk shears 1])
  = removeFromCart 11 [CartItem.mk rope 3; CartItem.mk shears 1] /\
  removeFromCart 11 [CartItem.mk shears 1] = [CartItem.mk shears 1].
Proof.
  split.
  - apply (removeFromCart_idempotent 11 [CartItem.mk rope 3; CartItem.mk shears 1]).
  - apply (removeFromCart_idempotent 11 [CartItem.mk shears 1]).
    constructor; [discriminate|constructor].
Defined.

(** * Further properties of the cart *)

Lemma cartCount_fold (cart : Cart) (acc : Z) :
  fold_left (fun a item => a + CartItem.quantity item) cart acc
  = acc + cartCount cart.
Proof.
  unfold cartCount. revert acc.
  induction cart as [|it l IH]; intros acc; simpl; [lia|].
  rewrite IH, (IH (0 + _)). lia.
Qed.

Lemma cartCount_cons (it : CartItem.t) (cart : Cart) :
  cartCount (it :: cart) = CartItem.quantity it + cartCount cart.
Proof. unfold cartCount at 1. simpl. now rewrite cartCount_fold. Qed.

Lemma cartCount_app (c1 c2 : Cart) :
  cartCount (c1 ++ c2) = cartCount c1 + cartCount c2.
Proof.
  induction c1 as [|it l IH]; [reflexivity|].
  simpl. rewrite !cartCount_cons, IH. lia.
Qed.

Lemma set_quantity_of_no_entry productId newq (cart : Cart) :
  no_entry productId cart -> set_quantity_of productId newq cart = cart.
Proof.
  unfold no_entry. induction 1 as [|it l Hit Hl IH]; simpl; [reflexivity|].
  apply Z.eqb_neq in Hit. now rewrite Hit, IH.
Qed.

Lemma cartCount_set_quantity_of productId newq (cart : Cart) k item :
  ids_unique cart ->
  cart !! k = Some item ->
  item_id item = productId ->
  cartCount (set_quantity_of productId newq cart)
  = cartCount cart - CartItem.quantity item + newq item.
Proof.
  unfold ids_unique. revert k.
  induction cart as [|it l IH]; intros k Hu Hk Hid; [discriminate|].
  simpl in Hu. apply List.NoDup_cons_iff in Hu as [Hnot Hu].
  simpl. rewrite !cartCount_cons. destruct k as [|k]; simpl in Hk.
  - inversion Hk; subst it. apply Z.eqb_eq in Hid as Hid'. rewrite Hid'.
    fold (set_quantity_of productId newq l).
    rewrite set_quantity_of_no_entry; [simpl; lia|].
    apply no_entry_not_in. now rewrite <- Hid.
  - fold (set_quantity_of productId newq l). rewrite (IH k Hu Hk Hid).
    destruct (item_id it =? productId) eqn:E; [|lia].
    exfalso. apply Hnot. apply Z.eqb_eq in E. rewrite E, <- Hid.
    apply in_map. apply list_elem_of_In. eapply list_elem_of_lookup_2, Hk.
Qed.

Lemma updateCartQuantity_as_set productId delta (cart : Cart) :
  updateCartQuantity productId delta cart
  = set_quantity_of productId
      (fun it => if CartItem.quantity it + delta <? 1
                 then CartItem.quantity it
                 else CartItem.quantity it + delta) cart.
Proof.
  unfold updateCartQuantity, set_quantity_of. apply List.map_ext.
  intros [p q]. simpl. destruct (_ =? productId); [|reflexivity].
  now destruct (q + delta <? 1).
Qed.

Lemma find_some_entry (productId : Z) (cart : Cart) it :
  List.find (fun item => item_id item =? productId) cart = Some it ->
  exists k item, cart !! k = Some item /\ item_id item = productId.
Proof.
  intros H. apply List.find_some in H as [Hin He].
  apply list_elem_of_In, list_elem_of_lookup_1 in Hin as [k Hk].
  exists k, it. split; [exact Hk | now apply Z.eqb_eq].
Qed.

(** X1.  With one entry per product id, [addToCart] raises the badge
    count by exactly one, whether or not the product was in the cart. *)
Theorem cartCount_addToCart (product : Product.t) (cart : Cart) :
  ids_unique cart ->
  cartCount (addToCart product cart) = cartCount cart + 1.
Proof.
  intros Hu. unfold addToCart.
  destruct (List.find _ cart) as [it|] eqn:E.
  - apply find_some_entry in E as (k & item & Hk & Hid).
    fold (set_quantity_of (Product.id product)
            (fun it => CartItem.quantity it + 1) cart).
    rewrite (cartCount_set_quantity_of _ _ cart k item) by assumption. lia.
  - rewrite cartCount_app. unfold cartCount at 2. simpl. lia.
Qed.

Lemma cartCount_addToCart_witness :
  cartCount (addToCart rope [CartItem.mk shears 2; CartItem.mk rope 7])
  = cartCount [CartItem.mk shears 2; CartItem.mk rope 7] + 1.
Proof.
  apply (cartCount_addToCart rope [CartItem.mk shears 2; CartItem.mk rope 7]).
  repeat constructor; simpl; intuition discriminate.
Defined.

(** X2.  When every quantity is at least 1 the badge count is at least the
    number of entries, so the badge ([cartCount > 0]) shows exactly when
    the cart is not empty. *)
Theorem cartCount_positive_iff_nonempty (cart : Cart) :
  quantities_positive cart ->
  Z.of_nat (length cart) <= cartCount cart /\
  (0 < cartCount cart <-> cart <> []).
Proof.
  intros Hq.
  assert (Hlen : Z.of_nat (length cart) <= cartCount cart).
  { induction Hq as [|it l Hit Hl IH]; [reflexivity|].
    rewrite cartCount_cons. simpl length. lia. }
  split; [exact Hlen|]. destruct cart as [|it l].
  - split; [intros H; now vm_compute in H | congruence].
  - simpl length in Hlen. split; [discriminate | lia].
Qed.

Lemma cartCount_positive_iff_nonempty_witness :
  Z.of_nat (length [CartItem.mk shears 2; CartItem.mk rope 7])
  <= cartCount [CartItem.mk shears 2; CartItem.mk rope 7] /\
  (0 < cartCount [CartItem.mk shears 2; CartItem.mk rope 7]
   <-> [CartItem.mk shears 2; CartItem.mk rope 7] <> []).
Proof.
  apply (cartCount_positive_iff_nonempty [CartItem.mk shears 2; CartItem.mk rope 7]).
  repeat constructor; simpl; lia.
Defined.

Lemma cartCount_remove_no_entry_tail productId (cart : Cart) :
  no_entry productId cart ->
  cartCount (removeFromCart productId cart) = cartCount cart.
Proof. intros H. now rewrite removeFromCart_no_entry. Qed.

(** X3.  With one entry per product id, removing an entry lowers the badge
    count by that entry's quantity. *)
Theorem cartCount_removeFromCart (cart : Cart) (k : nat) (item : CartItem.t) :
  ids_unique cart ->
  cart !! k = Some item ->
  cartCount (removeFromCart (item_id item) cart)
  = cartCount cart - CartItem.quantity item.
Proof.
  unfold ids_unique. revert k.
  induction cart as [|it l IH]; intros k Hu Hk; [discriminate|].
  simpl in Hu. apply List.NoDup_cons_iff in Hu as [Hnot Hu].
  simpl. destruct k as [|k]; simpl in Hk.
  - inversion Hk; subst it. rewrite Z.eqb_refl. simpl.
    rewrite cartCount_cons, cartCount_remove_no_entry_tail; [lia|].
    now apply no_entry_not_in.
  - destruct (item_id it =? item_id item) eqn:E.
    + exfalso. apply Hnot. apply Z.eqb_eq in E. rewrite E.
      apply in_map. apply list_elem_of_In. eapply list_elem_of_lookup_2, Hk.
    + simpl. rewrite !cartCount_cons, (IH k Hu Hk). lia.
Qed.

Lemma cartCount_removeFromCart_witness :
  cartCount (removeFromCart (item_id (CartItem.mk rope 7))
               [CartItem.mk shears 2; CartItem.mk rope 7])
  = cartCount [CartItem.mk shears 2; CartItem.mk rope 7]
    - CartItem.quantity (CartItem.mk rope 7).
Proof.
  apply (cartCount_removeFromCart
           [CartItem.mk shears 2; CartItem.mk rope 7] 1 (CartItem.mk rope 7)).
  - repeat constructor; simpl; intuition discriminate.
  - reflexivity.
Defined.

(** X4.  With one entry per product id, [updateCartQuantity] changes the
    badge count by [delta] when the entry's new quantity stays at least 1,
    and leaves it unchanged when the floor stops the update. *)
Theorem cartCount_updateCartQuantity
        (productId delta : Z) (cart : Cart) (k : nat) (item : CartItem.t) :
  ids_unique cart ->
  cart !! k = Some item ->
  item_id item = productId ->
  cartCount (updateCartQuantity productId delta cart)
  = cartCount cart + (if CartItem.quantity item + delta <? 1 then 0 else delta).
Proof.
  intros Hu Hk Hid. rewrite updateCartQuantity_as_set.
  rewrite (cartCount_set_quantity_of _ _ cart k item) by assumption.
  destruct (CartItem.quantity item + delta <? 1); lia.
Qed.

Lemma cartCount_updateCartQuantity_witness :
  cartCount (updateCartQuantity 11 (-3) [CartItem.mk shears 2; CartItem.mk rope 7])
  = cartCount [CartItem.mk shears 2; CartItem.mk rope 7] + (-3) /\
  cartCount (updateCartQuantity 12 (-3) [CartItem.mk shears 2; CartItem.mk rope 7])
  = cartCount [CartItem.mk shears 2; CartItem.mk rope 7] + 0.
Proof.
  split.
  - apply (cartCount_updateCartQuantity 11 (-3)
             [CartItem.mk shears 2; CartItem.mk rope 7] 1 (CartItem.mk rope 7));
      [repeat constructor; simpl; intuition discriminate | reflexivity | reflexivity].
  - apply (cartCount_updateCartQuantity 12 (-3)
             [CartItem.mk shears 2; CartItem.mk rope 7] 0 (CartItem.mk shears 2));
      [repeat constructor; simpl; intuition discriminate | reflexivity | reflexivity].
Defined.

(** X5.  Removing a product right after adding it gives the cart with that
    product removed; in particular, for a product that was not in the
    cart, add followed by remove restores the cart. *)
Theorem removeFromCart_after_addToCart (product : Product.t) (cart : Cart) :
  removeFromCart (Product.id product) (addToCart product cart)
  = removeFromCart (Product.id product) cart /\
  (no_entry (Product.id product) cart ->
   removeFromCart (Product.id product) (addToCart product cart) = cart).
Proof.
  assert (H : removeFromCart (Product.id product) (addToCart product cart)
              = removeFromCart (Product.id product) cart).
  { unfold addToCart. destruct (List.find _ cart) as [it|].
    - unfold removeFromCart. induction cart as [|x l IH]; [reflexivity|].
      simpl. destruct (item_id x =? Product.id product) eqn:E.
      + unfold item_id in *. simpl. rewrite E. simpl. exact IH.
      + rewrite E. simpl. now rewrite IH.
    - unfold removeFromCart. rewrite List.filter_app. simpl.
      unfold item_id at 2. simpl. rewrite Z.eqb_refl. simpl.
      apply List.app_nil_r. }
  split; [exact H|]. intros Hno. rewrite H. now apply removeFromCart_no_entry.
Qed.

Lemma removeFromCart_after_addToCart_witness :
  removeFromCart (Product.id rope) (addToCart rope [CartItem.mk shears 2])
  = [CartItem.mk shears 2].
Proof.
  apply (removeFromCart_after_addToCart rope [CartItem.mk shears 2]).
  constructor; [discriminate|constructor].
Defined.

(** X6.  On a cart whose quantities are all at least 1, pressing plus and
    then minus on a product restores the cart. *)
Theorem increment_then_decrement (productId : Z) (cart : Cart) :
  quantities_positive cart ->
  updateCartQuantity productId (-1) (updateCartQuantity productId 1 cart) = cart.
Proof.
  unfold quantities_positive. induction 1 as [|it l Hit Hl IH]; [reflexivity|].
  simpl. rewrite IH. f_equal.
  destruct (item_id it =? productId) eqn:E; [|now rewrite E].
  assert (H1 : (CartItem.quantity it + 1 <? 1) = false) by (apply Z.ltb_ge; lia).
  rewrite H1. unfold item_id in *. simpl. rewrite E.
  assert (H2 : (CartItem.quantity it + 1 + -1 <? 1) = false) by (apply Z.ltb_ge; lia).
  rewrite H2. destruct it as [p q]. unfold CartItem.with_quantity. simpl.
  f_equal. lia.
Qed.

Lemma increment_then_decrement_witness :
  updateCartQuantity 11 (-1)
    (updateCartQuantity 11 1 [CartItem.mk shears 2; CartItem.mk rope 1])
  = [CartItem.mk shears 2; CartItem.mk rope 1].
Proof.
  apply (increment_then_decrement 11 [CartItem.mk shears 2; CartItem.mk rope 1]).
  repeat constructor; simpl; lia.
Defined.

Lemma addToCart_fresh (product : Product.t) (cart : Cart) :
  no_entry (Product.id product) cart ->
  addToCart product cart = cart ++ [CartItem.mk product 1].
Proof.
  intros Hno. unfold addToCart.
  destruct (List.find _ cart) as [it|] eqn:E; [|reflexivity].
  apply List.find_some in E as [Hin He]. apply Z.eqb_eq in He.
  unfold no_entry in Hno. rewrite List.Forall_forall in Hno.
  now apply Hno in Hin.
Qed.

(** X7.  Adding a product that is not in the cart [n + 1] times in a row
    appends a single entry for it, with quantity [n + 1]. *)
Theorem addToCart_repeated (product : Product.t) (cart : Cart) (n : nat) :
  no_entry (Product.id product) cart ->
  Nat.iter (S n) (addToCart product) cart
  = cart ++ [CartItem.mk product (Z.of_nat (S n))].
Proof.
  intros Hno. induction n as [|n IH].
  - simpl. now apply addToCart_fresh.
  - change (Nat.iter (S (S n)) (addToCart product) cart)
      with (addToCart product (Nat.iter (S n) (addToCart product) cart)).
    rewrite IH. unfold addToCart.
    assert (Hf : List.find (fun item => item_id item =? Product.id product)
                   (cart ++ [CartItem.mk product (Z.of_nat (S n))])
                 <> None).
    { intros Hnone.
      pose proof (List.find_none _ _ Hnone (CartItem.mk product (Z.of_nat (S n)))) as Hx.
      unfold item_id in Hx. simpl in Hx. rewrite Z.eqb_refl in Hx.
      assert (false = true -> False) by discriminate.
      symmetry in Hx. apply H, Hx. apply List.in_or_app. right. now left. }
    destruct (List.find _ _); [|contradiction].
    rewrite List.map_app. f_equal.
    + fold (set_quantity_of (Product.id product)
              (fun it => CartItem.quantity it + 1) cart).
      now apply set_quantity_of_no_entry.
    + simpl. unfold item_id. simpl. rewrite Z.eqb_refl.
      unfold CartItem.with_quantity. simpl. do 2 f_equal. lia.
Qed.

Lemma addToCart_repeated_witness :
  Nat.iter 3 (addToCart rope) [CartItem.mk shears 2]
  = [CartItem.mk shears 2] ++ [CartItem.mk rope (Z.of_nat 3)].
Proof.
  apply (addToCart_repeated rope [CartItem.mk shears 2] 2).
  constructor; [discriminate|constructor].
Defined.

(** X8.  For a product already in the cart (quantities at least 1),
    [addToCart] does what the plus button does:
    [updateCartQuantity product.id 1]. *)
Theorem addToCart_existing_is_increment (product : Product.t) (cart : Cart) :
  Exists (fun item => item_id item = Product.id product) cart ->
  quantities_positive cart ->
  addToCart product cart = updateCartQuantity (Product.id product) 1 cart.
Proof.
  intros Hex Hq. unfold addToCart.
  destruct (List.find _ cart) as [it|] eqn:E.
  - unfold updateCartQuantity. apply List.map_ext_in. intros x Hx.
    destruct (item_id x =? Product.id product); [|reflexivity].
    unfold quantities_positive in Hq. rewrite List.Forall_forall in Hq.
    apply Hq in Hx.
    assert (H1 : (CartItem.quantity x + 1 <? 1) = false) by (apply Z.ltb_ge; lia).
    now rewrite H1.
  - exfalso. apply find_none_no_entry in E. unfold no_entry in E.
    apply List.Exists_exists in Hex as (x & Hx & Hid).
    rewrite List.Forall_forall in E. now apply (E x Hx).
Qed.

Lemma addToCart_existing_is_increment_witness :
  addToCart rope [CartItem.mk shears 2; CartItem.mk rope 7]
  = updateCartQuantity (Product.id rope) 1 [CartItem.mk shears 2; CartItem.mk rope 7].
Proof.
  apply (addToCart_existing_is_increment rope [CartItem.mk shears 2; CartItem.mk rope 7]).
  - right. left. reflexivity.
  - repeat constructor; simpl; lia.
Defined.

(** X9.  [removeFromCart] and [updateCartQuantity] commute, for any two
    product ids (equal or not). *)
Theorem removeFromCart_updateCartQuantity_commute (p q delta : Z) (cart : Cart) :
  removeFromCart p (updateCartQuantity q delta cart)
  = updateCartQuantity q delta (removeFromCart p cart).
Proof.
  induction cart as [|it l IH]; [reflexivity|].
  simpl. fold (updateCartQuantity q delta l). fold (removeFromCart p l).
  assert (Hid : item_id
                  (if item_id it =? q
                   then if CartItem.quantity it + delta <? 1 then it
                        else CartItem.with_quantity it (CartItem.quantity it + delta)
                   else it) = item_id it).
  { destruct (item_id it =? q); [|reflexivity].
    now destruct (CartItem.quantity it + delta <? 1). }
  rewrite Hid. destruct (negb (item_id it =? p)); simpl; now rewrite IH.
Qed.

(** * Lessons: the active lesson and the sidebar *)

Lemma find_lesson_first (lessons : list Lesson.t) (i : nat) (l : Lesson.t) :
  lessons !! i = Some l ->
  exists k l', (k <= i)%nat /\ lessons !! k = Some l' /\
               Lesson.id l' = Lesson.id l /\
               List.find (fun x => Lesson.id x =? Lesson.id l) lessons = Some l'.
Proof.
  revert i. induction lessons as [|x rest IH]; intros i Hi; [discriminate|].
  simpl. destruct (Lesson.id x =? Lesson.id l) eqn:E.
  - exists 0%nat, x. repeat split; [lia | now apply Z.eqb_eq].
  - destruct i as [|i]; simpl in Hi.
    + inversion Hi; subst x. now rewrite Z.eqb_refl in E.
    + destruct (IH i Hi) as (k & l' & Hk & Hl' & Hid & Hf).
      exists (S k), l'. repeat split; [lia | exact Hl' | exact Hid | exact Hf].
Qed.

Lemma find_lesson_unique (lessons : list Lesson.t) (i : nat) (l : Lesson.t) :
  List.NoDup (List.map Lesson.id lessons) ->
  lessons !! i = Some l ->
  List.find (fun x => Lesson.id x =? Lesson.id l) lessons = Some l.
Proof.
  revert i. induction lessons as [|x rest IH]; intros i Hnd Hi; [discriminate|].
  simpl in Hnd. apply List.NoDup_cons_iff in Hnd as [Hx Hnd].
  simpl. destruct i as [|i]; simpl in Hi.
  - inversion Hi; subst x. now rewrite Z.eqb_refl.
  - destruct (Lesson.id x =? Lesson.id l) eqn:E; [|now apply (IH i)].
    exfalso. apply Hx. apply Z.eqb_eq in E. rewrite E.
    apply in_map. apply list_elem_of_In. eapply list_elem_of_lookup_2, Hi.
Qed.

(** X10.  As long as there is at least one lesson, [activeLesson] is
    defined and is a lesson of the list: the first one with the current id,
    or the first lesson when no lesson has that id. *)
Theorem activeLesson_defined (lessons : list Lesson.t) (cur : Z) :
  lessons <> [] ->
  exists l,
    activeLesson lessons cur = Some l /\ l ∈ lessons /\
    (Lesson.id l = cur \/
     (Forall (fun x => Lesson.id x <> cur) lessons /\ lessons !! 0%nat = Some l)).
Proof.
  intros Hne. unfold activeLesson.
  destruct (List.find _ lessons) as [l|] eqn:E.
  - exists l. apply List.find_some in E as [Hin He].
    repeat split; [now apply list_elem_of_In | left; now apply Z.eqb_eq].
  - destruct lessons as [|x rest]; [contradiction|].
    exists x. repeat split; [apply list_elem_of_here|]. right. split; [|reflexivity].
    apply List.Forall_forall. intros y Hy.
    apply Z.eqb_neq. exact (List.find_none _ _ E y Hy).
Qed.

Lemma activeLesson_defined_witness :
  exists l,
    activeLesson [Lesson.mk 3 None; Lesson.mk 8 (Some [Some 2])] 5 = Some l /\
    l ∈ [Lesson.mk 3 None; Lesson.mk 8 (Some [Some 2])] /\
    (Lesson.id l = 5 \/
     (Forall (fun x => Lesson.id x <> 5)
             [Lesson.mk 3 None; Lesson.mk 8 (Some [Some 2])] /\
      [Lesson.mk 3 None; Lesson.mk 8 (Some [Some 2])] !! 0%nat = Some l)).
Proof.
  apply (activeLesson_defined [Lesson.mk 3 None; Lesson.mk 8 (Some [Some 2])] 5).
  discriminate.
Defined.

Lemma applyLessonEvent_nonempty (lessons : list Lesson.t) (ev : LessonEvent) :
  lessons <> [] -> applyLessonEvent lessons ev <> [].
Proof.
  intros Hne. destruct ev as [[[|x rest]|]|id data]; simpl; try assumption.
  - discriminate.
  - destruct lessons; [contradiction|discriminate].
Qed.

(** X11.  Neither a fetch result (which is ignored when it is missing or
    empty) nor an edit empties the lesson list: starting from a non-empty
    list, [activeLesson] is defined after any sequence of such events, so
    reading [activeLesson.related_articles] never fails. *)
Theorem lessons_never_emptied
        (initial : list Lesson.t) (events : list LessonEvent) (cur : Z) :
  initial <> [] ->
  foldl applyLessonEvent initial events <> [] /\
  is_Some (activeLesson (foldl applyLessonEvent initial events) cur).
Proof.
  intros Hne.
  assert (H : foldl applyLessonEvent initial events <> []).
  { revert initial Hne. induction events as [|ev evs IH]; intros initial Hne;
      [exact Hne|].
    simpl. now apply IH, applyLessonEvent_nonempty. }
  split; [exact H|].
  destruct (activeLesson_defined _ cur H) as (l & Hl & _). now exists l.
Qed.

Lemma lessons_never_emptied_witness :
  foldl applyLessonEvent [Lesson.mk 3 None]
        [Fetched (Some []); Edited 3 (LessonPatch.mk None (Some None)); Fetched None]
  <> [] /\
  is_Some (activeLesson
             (foldl applyLessonEvent [Lesson.mk 3 None]
                    [Fetched (Some []); Edited 3 (LessonPatch.mk None (Some None));
                     Fetched None]) 1).
Proof.
  apply (lessons_never_emptied [Lesson.mk 3 None]
           [Fetched (Some []); Edited 3 (LessonPatch.mk None (Some None));
            Fetched None] 1).
  discriminate.
Defined.

Lemma click_unlocked_selects (lessons : list Lesson.t) (i : nat) (l : Lesson.t) :
  lessons !! i = Some l ->
  exists k l', (k <= i)%nat /\ lessons !! k = Some l' /\
               activeLesson lessons (Lesson.id l) = Some l'.
Proof.
  intros Hi. destruct (find_lesson_first lessons i l Hi) as (k & l' & Hk & Hl' & _ & Hf).
  exists k, l'. unfold activeLesson. now rewrite Hf.
Qed.

(** X12.  For a visitor who is not signed in, sidebar clicks never make a
    lesson beyond the first four the active one: if the lesson shown is
    among the first four, it still is after any sequence of clicks. *)
Theorem anonymous_clicks_stay_free
        {U : Type} (lessons : list Lesson.t) (st : NavState) (clicks : list nat) :
  free_lesson lessons (currentLessonId st) ->
  free_lesson lessons
    (currentLessonId (foldl (clickLesson lessons (@None U)) st clicks)).
Proof.
  revert st. induction clicks as [|i rest IH]; intros st Hfree; [exact Hfree|].
  simpl. apply IH. unfold clickLesson.
  destruct (lessons !! i) as [l|] eqn:Hi; [|exact Hfree].
  unfold handleLessonClick, isLocked.
  destruct (4 <=? i)%nat eqn:E; [exact Hfree|].
  apply Nat.leb_gt in E. simpl.
  destruct (click_unlocked_selects lessons i l Hi) as (k & l' & Hk & Hl' & Ha).
  exists k, l'. repeat split; [lia | exact Hl' | exact Ha].
Qed.

Lemma anonymous_clicks_stay_free_witness :
  free_lesson six_lessons
    (currentLessonId
       (foldl (clickLesson six_lessons (@None unit)) initialNav [5; 2; 4]%nat)).
Proof.
  apply (anonymous_clicks_stay_free six_lessons initialNav [5; 2; 4]%nat).
  exists 0%nat, (Lesson.mk 1 None). repeat split. lia.
Defined.

(** X13.  With unique lesson ids, a click on a lesson that is not locked
    (any lesson for a signed-in user, the first four otherwise) makes that
    lesson the active one and closes the mobile sidebar, leaving the
    sign-in overlay as it was. *)
Theorem unlocked_click_selects
        {U : Type} (lessons : list Lesson.t) (userProfile : option U)
        (st : NavState) (i : nat) (l : Lesson.t) :
  List.NoDup (List.map Lesson.id lessons) ->
  lessons !! i = Some l ->
  isLocked userProfile i = false ->
  activeLesson lessons (currentLessonId (clickLesson lessons userProfile st i))
  = Some l /\
  isSidebarOpen (clickLesson lessons userProfile st i) = false /\
  isAuthOpen (clickLesson lessons userProfile st i) = isAuthOpen st.
Proof.
  intros Hnd Hi Hl. unfold clickLesson. rewrite Hi, Hl. simpl.
  repeat split. unfold activeLesson.
  now rewrite (find_lesson_unique lessons i l Hnd Hi).
Qed.

Lemma unlocked_click_selects_witness :
  activeLesson six_lessons
    (currentLessonId (clickLesson six_lessons (Some tt) initialNav 5))
  = Some (Lesson.mk 6 None) /\
  isSidebarOpen (clickLesson six_lessons (Some tt) initialNav 5) = false /\
  isAuthOpen (clickLesson six_lessons (Some tt) initialNav 5) = isAuthOpen initialNav.
Proof.
  apply (unlocked_click_selects six_lessons (Some tt) initialNav 5 (Lesson.mk 6 None)).
  - repeat constructor; simpl; intuition discriminate.
  - reflexivity.
  - reflexivity.
Defined.

Lemma find_optimisticUpdate_same (lessons : list Lesson.t) (cur : Z)
      (data : LessonPatch.t) (l : Lesson.t) :
  LessonPatch.id data = None ->
  List.find (fun x => Lesson.id x =? cur) lessons = Some l ->
  List.find (fun x => Lesson.id x =? cur) (optimisticUpdate cur data lessons)
  = Some (merge_lesson l data).
Proof.
  intros Hid. induction lessons as [|x rest IH]; intros Hf; [discriminate|].
  simpl in *. destruct (Lesson.id x =? cur) eqn:E.
  - inversion Hf; subst x. unfold merge_lesson at 1. simpl. rewrite Hid. simpl.
    now rewrite E.
  - rewrite E. now apply IH.
Qed.

Lemma find_optimisticUpdate_other (lessons : list Lesson.t) (id cur : Z)
      (data : LessonPatch.t) (l : Lesson.t) :
  id <> cur ->
  LessonPatch.id data <> Some cur ->
  List.find (fun x => Lesson.id x =? cur) lessons = Some l ->
  List.find (fun x => Lesson.id x =? cur) (optimisticUpdate id data lessons)
  = Some l.
Proof.
  intros Hne Hid. induction lessons as [|x rest IH]; intros Hf; [discriminate|].
  simpl in *. destruct (Lesson.id x =? cur) eqn:E.
  - inversion Hf; subst x. apply Z.eqb_eq in E.
    assert (H : (Lesson.id l =? id) = false) by (apply Z.eqb_neq; congruence).
    rewrite H. apply Z.eqb_eq in E. now rewrite E.
  - destruct (Lesson.id x =? id) eqn:E'; [|rewrite E; now apply IH].
    assert (H : (Lesson.id (merge_lesson x data) =? cur) = false).
    { apply Z.eqb_neq. unfold merge_lesson. simpl.
      destruct (LessonPatch.id data) as [n|]; simpl.
      - congruence.
      - now apply Z.eqb_neq. }
    rewrite H. now apply IH.
Qed.

Lemma activeLesson_found (lessons : list Lesson.t) (cur : Z) (l : Lesson.t) :
  activeLesson lessons cur = Some l ->
  Lesson.id l = cur ->
  List.find (fun x => Lesson.id x =? cur) lessons = Some l.
Proof.
  unfold activeLesson. intros Ha Hid.
  destruct (List.find _ lessons) as [l'|] eqn:E; [exact Ha|].
  destruct lessons as [|x rest]; [discriminate|].
  simpl in Ha. inversion Ha; subst x.
  simpl in E. apply Z.eqb_eq in Hid. now rewrite Hid in E.
Qed.

(** X14.  Editing the lesson that is being shown, without changing its id,
    replaces it by the merged lesson at once; when the edit sets
    [related_articles] to a list, that list is what the slot grid is
    computed from.  Editing another lesson leaves the shown lesson as it
    is. *)
Theorem edit_takes_effect_on_active_lesson
        (lessons : list Lesson.t) (cur : Z) (l : Lesson.t) :
  activeLesson lessons cur = Some l ->
  Lesson.id l = cur ->
  (forall data,
      LessonPatch.id data = None ->
      activeLesson (optimisticUpdate cur data lessons) cur
      = Some (merge_lesson l data)) /\
  (forall data ids,
      LessonPatch.id data = None ->
      LessonPatch.related_articles data = Some (Some ids) ->
      configIdsOf <$> activeLesson (optimisticUpdate cur data lessons) cur
      = Some ids) /\
  (forall id data,
      id <> cur ->
      LessonPatch.id data <> Some cur ->
      activeLesson (optimisticUpdate id data lessons) cur = Some l).
Proof.
  intros Ha Hid. pose proof (activeLesson_found lessons cur l Ha Hid) as Hf.
  assert (H1 : forall data, LessonPatch.id data = None ->
                            activeLesson (optimisticUpdate cur data lessons) cur
                            = Some (merge_lesson l data)).
  { intros data Hd. unfold activeLesson.
    now rewrite (find_optimisticUpdate_same lessons cur data l Hd Hf). }
  split; [exact H1|]. split.
  - intros data ids Hd Hr. rewrite (H1 data Hd). simpl.
    unfold configIdsOf, merge_lesson. simpl. now rewrite Hr.
  - intros id data Hne Hd. unfold activeLesson.
    now rewrite (find_optimisticUpdate_other lessons id cur data l Hne Hd Hf).
Qed.

Lemma edit_takes_effect_on_active_lesson_witness :
  configIdsOf
    <$> activeLesson
          (optimisticUpdate 3 (LessonPatch.mk None (Some (Some [Some 5; None])))
             six_lessons) 3
  = Some [Some 5; None] /\
  activeLesson (optimisticUpdate 4 (LessonPatch.mk None (Some None)) six_lessons) 3
  = Some (Lesson.mk 3 (Some [Some 2])).
Proof.
  destruct (edit_takes_effect_on_active_lesson six_lessons 3
              (Lesson.mk 3 (Some [Some 2])) eq_refl eq_refl) as (_ & H2 & H3).
  split.
  - apply H2; reflexivity.
  - apply H3; discriminate.
Defined.

(** * Localised fields *)

(** X15.  A field that the item has is never lost by [getData]: in either
    language it returns a value, which is the field itself or, for
    English, a truthy [_en] variant; a missing or falsy variant (such as
    an empty string) falls back to the field. *)
Theorem getData_falls_back
        {V : Type} (truthyV : V -> bool) (lang : Lang)
        (item : gmap string V) (field : string) (v : V) :
  item !! field = Some v ->
  exists w,
    getData truthyV lang item field = Some w /\
    (w = v \/
     (lang = en /\ item !! (field +:+ "_en") = Some w /\ truthyV w = true)) /\
    (lang = ru -> w = v) /\
    (forall w', item !! (field +:+ "_en") = Some w' -> truthyV w' = false -> w = v).
Proof.
  intros Hv. unfold getData. destruct lang.
  - exists v. rewrite Hv. repeat split; auto.
  - destruct (item !! (field +:+ "_en")) as [w|] eqn:E.
    + destruct (truthyV w) eqn:T.
      * exists w. repeat split; auto; try discriminate.
        intros w' Hw' Hf. congruence.
      * exists v. rewrite Hv. repeat split; auto.
    + exists v. rewrite Hv. repeat split; auto.
Qed.

Lemma getData_falls_back_witness :
  exists w,
    getData nonEmpty en
      (<["title_en" := ""]> (<["title" := "Узлы"]> (∅ : gmap string string)))
      "title" = Some w /\
    (w = "Узлы" \/
     (en = en /\
      <["title_en" := ""]> (<["title" := "Узлы"]> (∅ : gmap string string))
        !! ("title" +:+ "_en") = Some w /\ nonEmpty w = true)) /\
    (en = ru -> w = "Узлы") /\
    (forall w',
        <["title_en" := ""]> (<["title" := "Узлы"]> (∅ : gmap string string))
          !! ("title" +:+ "_en") = Some w' ->
        nonEmpty w' = false -> w = "Узлы").
Proof.
  apply (getData_falls_back nonEmpty en
           (<["title_en" := ""]> (<["title" := "Узлы"]> (∅ : gmap string string)))
           "title" "Узлы").
  vm_compute. reflexivity.
Defined.

(** * Shop filters *)

Lemma includes_empty_needle (s : string) : includes s "" = true.
Proof. destruct s; reflexivity. Qed.

Lemma includes_empty_haystack (q : string) : includes "" q = true <-> q = ""%string.
Proof. destruct q; simpl; split; congruence. Qed.

Section MarketplaceFacts.
Variable category : Product.t -> option string.
Variable getDataP : Product.t -> string -> string.
Variable toLowerCase : string -> string.
Variable trim : string -> string.

Local Abbreviation filtered := (Marketplace.filteredProducts category getDataP toLowerCase).
Local Abbreviation categories := (Marketplace.dynamicCategories category trim).

Lemma shown_empty_query selectedCategory searchQuery p :
  toLowerCase searchQuery = ""%string ->
  Marketplace.shown category getDataP toLowerCase selectedCategory searchQuery p
  = if String.eqb selectedCategory "all" then true
    else match category p with
         | Some c => String.eqb c selectedCategory
         | None => false
         end.
Proof. intros H. unfold Marketplace.shown. now rewrite H. Qed.

(** X16.  With the category ['all'] and an empty search box, the shop
    shows every product, in the order received. *)
Theorem filteredProducts_all_empty_query (products : list Product.t) (searchQuery : string) :
  toLowerCase searchQuery = ""%string ->
  filtered products "all" searchQuery = products.
Proof.
  intros H. unfold Marketplace.filteredProducts.
  induction products as [|p l IH]; [reflexivity|].
  simpl. rewrite shown_empty_query by assumption. simpl. now rewrite IH.
Qed.

Lemma shown_category selectedCategory searchQuery p :
  String.eqb selectedCategory "all" = false ->
  Marketplace.shown category getDataP toLowerCase selectedCategory searchQuery p
  = Marketplace.shown category getDataP toLowerCase "all" searchQuery p
    && bool_decide (category p = Some selectedCategory).
Proof.
  intros Hne. unfold Marketplace.shown. rewrite Hne.
  change (String.eqb "all" "all") with true. cbv iota.
  destruct (nonEmpty _ && _ && _); [reflexivity|].
  cbn [andb]. case_bool_decide as Hc.
  - rewrite Hc. apply String.eqb_refl.
  - destruct (category p) as [c|]; [|reflexivity].
    apply String.eqb_neq. congruence.
Qed.

(** X17.  Choosing a category other than ['all'] narrows the result of the
    same search to the products whose [category] field is exactly that
    string. *)
Theorem filteredProducts_category_refines
        (products : list Product.t) (selectedCategory searchQuery : string) :
  selectedCategory <> "all"%string ->
  filtered products selectedCategory searchQuery
  = List.filter (fun p => bool_decide (category p = Some selectedCategory))
      (filtered products "all" searchQuery) /\
  Forall (fun p => category p = Some selectedCategory)
         (filtered products selectedCategory searchQuery).
Proof.
  intros Hne. apply String.eqb_neq in Hne.
  assert (Heq : filtered products selectedCategory searchQuery
                = List.filter (fun p => bool_decide (category p = Some selectedCategory))
                    (filtered products "all" searchQuery)).
  { unfold Marketplace.filteredProducts.
    induction products as [|p l IH]; [reflexivity|].
    simpl. rewrite (shown_category selectedCategory searchQuery p Hne).
    destruct (Marketplace.shown category getDataP toLowerCase "all" searchQuery p);
      simpl; [|exact IH].
    destruct (bool_decide (category p = Some selectedCategory)); now rewrite IH. }
  split; [exact Heq|]. rewrite Heq.
  apply List.Forall_forall. intros p Hp.
  apply List.filter_In in Hp as [_ Hp]. now apply bool_decide_eq_true in Hp.
Qed.
End MarketplaceFacts.

Lemma nonEmpty_true (s : string) : nonEmpty s = true <-> s <> ""%string.
Proof.
  unfold nonEmpty. rewrite negb_true_iff. apply String.eqb_neq.
Qed.

Lemma elem_of_set_add (c x : string) (cats : list string) :
  x ∈ Marketplace.set_add c cats <-> x = c \/ x ∈ cats.
Proof.
  unfold Marketplace.set_add. case_bool_decide as Hc.
  - split; [now right | intros [->|H]; assumption].
  - rewrite elem_of_app, list_elem_of_singleton. tauto.
Qed.

Lemma NoDup_set_add (c : string) (cats : list string) :
  NoDup cats -> NoDup (Marketplace.set_add c cats).
Proof.
  intros Hnd. unfold Marketplace.set_add. case_bool_decide as Hc; [exact Hnd|].
  apply NoDup_app. repeat split; [exact Hnd | | apply NoDup_singleton].
  intros x Hx Hx'. apply list_elem_of_singleton in Hx'. now subst x.
Qed.

Lemma elem_of_insert_sorted (c x : string) (l : list string) :
  x ∈ Marketplace.insert_sorted c l <-> x = c \/ x ∈ l.
Proof.
  induction l as [|d rest IH]; simpl.
  - rewrite list_elem_of_singleton, elem_of_nil. tauto.
  - destruct (String.leb c d).
    + now rewrite elem_of_cons.
    + rewrite !elem_of_cons, IH. tauto.
Qed.

Lemma NoDup_insert_sorted (c : string) (l : list string) :
  c ∉ l -> NoDup l -> NoDup (Marketplace.insert_sorted c l).
Proof.
  induction l as [|d rest IH]; simpl; intros Hc Hnd.
  - apply NoDup_singleton.
  - destruct (String.leb c d).
    + now apply NoDup_cons.
    + apply NoDup_cons in Hnd as [Hd Hnd]. apply not_elem_of_cons in Hc as [Hcd Hc].
      apply NoDup_cons. split; [|now apply IH].
      rewrite elem_of_insert_sorted. intros [->|H]; [now apply Hcd | now apply Hd].
Qed.

Lemma Sorted_insert_sorted (c : string) (l : list string) :
  Sorted (fun a b => String.leb a b = true) l ->
  Sorted (fun a b => String.leb a b = true) (Marketplace.insert_sorted c l).
Proof.
  induction l as [|d rest IH]; simpl; intros Hs.
  - repeat constructor.
  - destruct (String.leb c d) eqn:E.
    + constructor; [exact Hs | now constructor].
    + apply Sorted_inv in Hs as [Hs Hhd].
      constructor; [now apply IH|].
      assert (Hdc : String.leb d c = true).
      { destruct (String.leb_total c d) as [H|H]; [congruence|exact H]. }
      destruct rest as [|e rest']; simpl; [now constructor|].
      destruct (String.leb c e); constructor; [exact Hdc|].
      now apply HdRel_inv in Hhd.
Qed.

Lemma sort_spec (l : list string) :
  NoDup l ->
  NoDup (Marketplace.sort l) /\
  Sorted (fun a b => String.leb a b = true) (Marketplace.sort l) /\
  forall x, x ∈ Marketplace.sort l <-> x ∈ l.
Proof.
  induction l as [|c rest IH]; intros Hnd.
  - repeat split; try constructor; auto.
  - apply NoDup_cons in Hnd as [Hc Hnd].
    destruct (IH Hnd) as (Hn & Hs & Hm). simpl. repeat split.
    + apply NoDup_insert_sorted; [now rewrite Hm | exact Hn].
    + now apply Sorted_insert_sorted.
    + rewrite elem_of_insert_sorted, Hm, elem_of_cons; tauto.
    + rewrite elem_of_insert_sorted, Hm, elem_of_cons; tauto.
Qed.

Section CategoryFacts.
Variable category : Product.t -> option string.
Variable getDataP : Product.t -> string -> string.
Variable toLowerCase : string -> string.
Variable trim : string -> string.

Local Abbreviation step :=
  (fun cats p =>
     match category p with
     | Some c =>
         if nonEmpty c && negb (String.eqb (trim c) "")
         then Marketplace.set_add (trim c) cats
         else cats
     | None => cats
     end).

Lemma collect_fold (products : list Product.t) (acc : list string) :
  NoDup acc ->
  NoDup (fold_left step products acc) /\
  forall c, c ∈ fold_left step products acc <->
            c ∈ acc \/ exists p, p ∈ products /\ Marketplace.offers category trim c p.
Proof.
  revert acc. induction products as [|p rest IH]; intros acc Hnd; simpl.
  - split; [exact Hnd|]. intros c. split; [now left|].
    intros [H|(p & Hp & _)]; [exact H | now apply elem_of_nil in Hp].
  - assert (Hstep : NoDup (step acc p) /\
                    forall c, c ∈ step acc p <->
                              c ∈ acc \/ Marketplace.offers category trim c p).
    { unfold Marketplace.offers. destruct (category p) as [raw|] eqn:Ec.
      - destruct (nonEmpty raw && negb (String.eqb (trim raw) "")) eqn:Et.
        + apply andb_true_iff in Et as [Hr Ht].
          apply nonEmpty_true in Hr. apply negb_true_iff, String.eqb_neq in Ht.
          split; [now apply NoDup_set_add|]. intros c.
          rewrite elem_of_set_add. split.
          * intros [->|H]; [right; exists raw; auto | now left].
          * intros [H|(raw' & Hraw & _ & _ & ->)]; [now right|].
            left. congruence.
        + split; [exact Hnd|]. intros c. split; [now left|].
          intros [H|(raw' & Hraw & Hr & Ht & _)]; [exact H|].
          exfalso. inversion Hraw; subst raw'.
          apply nonEmpty_true in Hr. apply String.eqb_neq in Ht.
          rewrite Hr, Ht in Et. discriminate.
      - split; [exact Hnd|]. intros c. split; [now left|].
        intros [H|(raw' & Hraw & _)]; [exact H | discriminate]. }
    destruct Hstep as [Hnd' Hm]. destruct (IH _ Hnd') as [Hn Hc].
    split; [exact Hn|]. intros c. rewrite Hc, Hm. split.
    + intros [[H|H]|(q & Hq & Ho)].
      * now left.
      * right. exists p. split; [apply list_elem_of_here | exact H].
      * right. exists q. split; [now apply list_elem_of_further | exact Ho].
    + intros [H|(q & Hq & Ho)]; [now left; left|].
      apply elem_of_cons in Hq as [->|Hq]; [left; now right|].
      right. now exists q.
Qed.

(** X18.  The category bar lists each non-blank trimmed category of the
    products exactly once, in ascending string order, and nothing else. *)
Theorem dynamicCategories_spec (products : list Product.t) :
  NoDup (Marketplace.dynamicCategories category trim products) /\
  Sorted (fun a b => String.leb a b = true)
         (Marketplace.dynamicCategories category trim products) /\
  forall c, c ∈ Marketplace.dynamicCategories category trim products <->
            exists p, p ∈ products /\ Marketplace.offers category trim c p.
Proof.
  unfold Marketplace.dynamicCategories, Marketplace.collectCategories.
  destruct (collect_fold products [] (NoDup_nil_2)) as [Hnd Hm].
  destruct (sort_spec _ Hnd) as (Hn & Hs & Hx).
  repeat split; [exact Hn | exact Hs | |].
  - intros H. apply Hx, Hm in H as [H|H]; [now apply elem_of_nil in H | exact H].
  - intros H. apply Hx, Hm. now right.
Qed.

(** X19.  When the products' categories are stored without surrounding
    white space, every category of the bar selects, with an empty search
    box, at least one product, and one of that very category.  (The filter
    compares the stored, untrimmed [category] with the trimmed name of the
    bar, hence the hypothesis.) *)
Theorem every_category_selects_a_product
        (products : list Product.t) (c searchQuery : string) :
  (forall p raw, p ∈ products -> category p = Some raw -> trim raw = raw) ->
  toLowerCase searchQuery = ""%string ->
  c ∈ Marketplace.dynamicCategories category trim products ->
  exists p,
    p ∈ products /\ category p = Some c /\
    p ∈ Marketplace.filteredProducts category getDataP toLowerCase products c searchQuery.
Proof.
  intros Htrim Hq Hc.
  apply dynamicCategories_spec in Hc as (p & Hp & raw & Hraw & _ & _ & ->).
  rewrite (Htrim p raw Hp Hraw). exists p. repeat split; [exact Hp | exact Hraw|].
  apply list_elem_of_In. unfold Marketplace.filteredProducts.
  apply List.filter_In. split; [now apply list_elem_of_In|].
  rewrite shown_empty_query by assumption.
  destruct (String.eqb raw "all"); [reflexivity|].
  rewrite Hraw. apply String.eqb_refl.
Qed.
End CategoryFacts.

Lemma filteredProducts_all_empty_query_witness :
  Marketplace.filteredProducts shop_category shop_getData lower_string
    shop_products "all" ""
  = shop_products.
Proof.
  apply (filteredProducts_all_empty_query
           shop_category shop_getData lower_string shop_products "").
  reflexivity.
Defined.

Lemma filteredProducts_category_refines_witness :
  Marketplace.filteredProducts shop_category shop_getData lower_string
    shop_products "tools" "KNI"
  = List.filter (fun p => bool_decide (shop_category p = Some "tools"%string))
      (Marketplace.filteredProducts shop_category shop_getData lower_string
         shop_products "all" "KNI") /\
  Forall (fun p => shop_category p = Some "tools"%string)
         (Marketplace.filteredProducts shop_category shop_getData lower_string
            shop_products "tools" "KNI").
Proof.
  apply (filteredProducts_category_refines
           shop_category shop_getData lower_string shop_products "tools" "KNI").
  discriminate.
Defined.

Lemma every_category_selects_a_product_witness :
  exists p,
    p ∈ shop_products /\ shop_category p = Some "tools"%string /\
    p ∈ Marketplace.filteredProducts shop_category shop_getData lower_string
          shop_products "tools" "".
Proof.
  apply (every_category_selects_a_product
           shop_category shop_getData lower_string trim_spaces
           shop_products "tools" "").
  - intros p raw Hp Hraw. unfold shop_products in Hp.
    repeat (apply elem_of_cons in Hp as [->|Hp]);
      [| | |now apply elem_of_nil in Hp];
      vm_compute in Hraw; inversion Hraw; reflexivity.
  - reflexivity.
  - unfold Marketplace.dynamicCategories. vm_compute.
    apply list_elem_of_further, list_elem_of_here.
Defined.

(** * Article search *)

Lemma sublist_filter_bool {A : Type} (f : A -> bool) (l : list A) :
  sublist (List.filter f l) l.
Proof.
  induction l as [|x l IH]; simpl; [constructor|].
  destruct (f x); now constructor.
Qed.

(** X20.  The library search returns all articles for an empty search
    box; otherwise it returns, in their original order, exactly the
    articles whose lower-cased title or description contains the
    lower-cased query, so an article with neither field is found by no
    query whose lower-cased form is non-empty. *)
Theorem filteredArticles_spec
        (_getData : Article.t -> string -> option string)
        (toLowerCase : string -> string)
        (articles : list Article.t) (searchQuery : string) :
  ArticlesModal.filteredArticles _getData toLowerCase articles "" = articles /\
  sublist (ArticlesModal.filteredArticles _getData toLowerCase articles searchQuery)
          articles /\
  (searchQuery <> ""%string ->
   forall a,
     a ∈ ArticlesModal.filteredArticles _getData toLowerCase articles searchQuery <->
     a ∈ articles /\
     (includes (ArticlesModal.lowered _getData toLowerCase a "title")
               (toLowerCase searchQuery) = true \/
      includes (ArticlesModal.lowered _getData toLowerCase a "description")
               (toLowerCase searchQuery) = true)) /\
  (searchQuery <> ""%string ->
   toLowerCase searchQuery <> ""%string ->
   forall a,
     _getData a "title" = None -> _getData a "description" = None ->
     a ∉ ArticlesModal.filteredArticles _getData toLowerCase articles searchQuery).
Proof.
  assert (Hchar : searchQuery <> ""%string ->
    forall a,
     a ∈ ArticlesModal.filteredArticles _getData toLowerCase articles searchQuery <->
     a ∈ articles /\
     (includes (ArticlesModal.lowered _getData toLowerCase a "title")
               (toLowerCase searchQuery) = true \/
      includes (ArticlesModal.lowered _getData toLowerCase a "description")
               (toLowerCase searchQuery) = true)).
  { intros Hq a. unfold ArticlesModal.filteredArticles.
    apply nonEmpty_true in Hq. rewrite Hq.
    rewrite !list_elem_of_In, List.filter_In, orb_true_iff. reflexivity. }
  split; [reflexivity|]. split; [|split; [exact Hchar|]].
  - unfold ArticlesModal.filteredArticles.
    destruct (nonEmpty searchQuery); [apply sublist_filter_bool | reflexivity].
  - intros Hq Hl a Ht Hd Hin. apply (Hchar Hq) in Hin as [_ Hm].
    unfold ArticlesModal.lowered in Hm. rewrite Ht, Hd in Hm.
    destruct Hm as [Hm|Hm]; apply includes_empty_haystack in Hm; contradiction.
Qed.

Lemma filteredArticles_spec_witness :
  (forall a,
     a ∈ ArticlesModal.filteredArticles article_getData lower_string
           sample_articles "ROPE" <->
     a ∈ sample_articles /\
     (includes (ArticlesModal.lowered article_getData lower_string a "title")
               (lower_string "ROPE") = true \/
      includes (ArticlesModal.lowered article_getData lower_string a "description")
               (lower_string "ROPE") = true)) /\
  ArticlesModal.filteredArticles article_getData lower_string sample_articles "ROPE"
  = [art 2 "rope care"].
Proof.
  split; [|vm_compute; reflexivity].
  destruct (filteredArticles_spec article_getData lower_string sample_articles "ROPE")
    as (_ & _ & H & _).
  apply H. discriminate.
Defined.

(** * Further properties of the related-article slots *)

Lemma resolve_Some (configIds : list (option Z)) (articles : list Article.t) i a :
  resolve configIds articles i = Some a ->
  exists n, js_get configIds i = Some n /\ n <> 0 /\
            find_article articles n = Some a.
Proof.
  unfold resolve. destruct (js_get configIds i) as [n|]; simpl; [|discriminate].
  destruct (n =? 0) eqn:E; simpl; [discriminate|].
  intros H. exists n. repeat split; [now apply Z.eqb_neq | exact H].
Qed.

(** X21.  With a non-empty collection every entry of the grid is an
    article of the collection: the placeholder is never used. *)
Theorem grid_entries_come_from_collection
        (configIds : list (option Z)) (articles : list Article.t)
        (i : nat) (a : Article.t) :
  articles <> [] ->
  currentRelatedArticles configIds articles !! i = Some (Some a) ->
  a ∈ articles.
Proof.
  intros Hne Hi.
  assert (Hlt : (i < 4)%nat).
  { apply lookup_lt_Some in Hi. now rewrite currentRelatedArticles_spec in Hi. }
  rewrite currentRelatedArticles_lookup in Hi by assumption.
  inversion Hi as [Ha]. clear Hi. unfold slotValue.
  rewrite fill_fixed_get by assumption.
  destruct (resolve configIds articles i) as [b|] eqn:Er.
  - apply resolve_Some in Er as (n & _ & _ & Hf).
    now apply find_article_Some in Hf.
  - unfold secondPass.
    destruct (fillers configIds articles !! _) as [f|] eqn:Ef.
    + apply list_elem_of_lookup_2 in Ef. now apply elem_of_fillers in Ef.
    + unfold fallback. destruct articles as [|x rest]; [contradiction|].
      apply list_elem_of_here.
Qed.

Lemma grid_entries_come_from_collection_witness :
  art 1 "knots" ∈ take 3 sample_articles.
Proof.
  apply (grid_entries_come_from_collection
           sparse_ids (take 3 sample_articles) 3 (art 1 "knots")).
  - discriminate.
  - vm_compute. reflexivity.
Defined.

(** X22.  A configured slot keeps its index: a non-zero id in one of the
    first four positions that some article has puts the first article with
    that id into the same slot of the grid; a non-zero id that no article
    has leaves the slot to the second loop. *)
Theorem configured_slot_keeps_its_index
        (configIds : list (option Z)) (articles : list Article.t)
        (i : nat) (n : Z) :
  (i < 4)%nat ->
  js_get configIds i = Some n ->
  n <> 0 ->
  match find_article articles n with
  | Some a =>
      currentRelatedArticles configIds articles !! i = Some (Some a) /\
      Article.id a = n /\ a ∈ articles
  | None =>
      currentRelatedArticles configIds articles !! i =
        Some (Some (secondPass configIds articles
                      (emptyBefore (fst (fill_fixed configIds articles)) i)))
  end.
Proof.
  intros Hi Hn Hz.
  pose proof (resolve_truthy configIds articles i n Hn Hz) as Hr.
  destruct (find_article articles n) as [a|] eqn:Ef.
  - split; [now apply slot_resolved|]. apply find_article_Some in Ef. tauto.
  - now apply slot_unresolved.
Qed.

Lemma configured_slot_keeps_its_index_witness :
  currentRelatedArticles sparse_ids sample_articles !! 2%nat
  = Some (Some (art 3 "safety")) /\
  Article.id (art 3 "safety") = 3 /\ art 3 "safety" ∈ sample_articles.
Proof.
  apply (configured_slot_keeps_its_index sparse_ids sample_articles 2 3);
    [lia | reflexivity | discriminate].
Defined.

Lemma emptyBefore_lt (result : list (option Article.t)) (i j : nat) :
  (i < j)%nat -> is_hole result i = true ->
  (emptyBefore result i < emptyBefore result j)%nat.
Proof.
  intros Hij Hh. unfold emptyBefore.
  replace j with (i + S (j - i - 1))%nat by lia.
  rewrite List.seq_app, List.filter_app, List.length_app.
  simpl. rewrite Hh. simpl. lia.
Qed.

Lemma length_filter_used (s : gset Z) (us : list Z) (l : list Article.t) :
  NoDup (Article.id <$> l) ->
  (forall a, a ∈ l -> Article.id a ∈ s -> Article.id a ∈ us) ->
  (length l <= length (filter (fun a => Article.id a ∉ s) l) + length us)%nat.
Proof.
  revert us. induction l as [|x l IH]; intros us Hnd Hus; [simpl; lia|].
  rewrite fmap_cons in Hnd. apply NoDup_cons in Hnd as [Hx Hnd].
  destruct (decide (Article.id x ∈ s)) as [Hin|Hout].
  - rewrite filter_cons_False by (intros Hn; now apply Hn).
    assert (Hu : Article.id x ∈ us) by (apply Hus; [apply list_elem_of_here|exact Hin]).
    apply list_elem_of_split in Hu as (u1 & u2 & ->).
    specialize (IH (u1 ++ u2) Hnd).
    rewrite length_app in *. simpl length.
    assert (Hle : (length l
                   <= length (filter (fun a => Article.id a ∉ s) l)
                      + (length u1 + length u2))%nat).
    { apply IH. intros a Ha Has.
      assert (Hne : Article.id a <> Article.id x).
      { intros E. apply Hx. rewrite <- E. now apply list_elem_of_fmap_2. }
      specialize (Hus a (list_elem_of_further _ _ _ Ha) Has).
      rewrite elem_of_app, elem_of_cons in Hus. rewrite elem_of_app. tauto. }
    lia.
  - rewrite filter_cons_True by exact Hout. simpl length.
    specialize (IH us Hnd). 
    assert (Hle : (length l
                   <= length (filter (fun a => Article.id a ∉ s) l) + length us)%nat).
    { apply IH. intros a Ha. apply Hus. now apply list_elem_of_further. }
    lia.
Qed.

Section NoRepeats.
Variable configIds : list (option Z).
Variable articles : list Article.t.
Hypothesis Hids : NoDup (Article.id <$> articles).
Hypothesis enough : (4 <= length articles)%nat.
Hypothesis config_distinct :
  forall i j n, (i < j)%nat -> (j < 4)%nat ->
                js_get configIds i = Some n -> js_get configIds j = Some n -> n = 0.

Local Abbreviation R := (fst (fill_fixed configIds articles)).
Local Abbreviation rs := (resolve configIds articles).
Local Abbreviation queue := (fillers configIds articles).

Lemma is_hole_resolve i :
  (i < 4)%nat ->
  is_hole R i = match rs i with Some _ => false | None => true end.
Proof. intros Hi. unfold is_hole. now rewrite fill_fixed_get. Qed.

Lemma holes_le_fillers : (emptyBefore R 4 <= length queue)%nat.
Proof.
  set (us := omap (fun i => Article.id <$> rs i) [0; 1; 2; 3]%nat).
  assert (Hcount : (length us + emptyBefore R 4 = 4)%nat).
  { unfold emptyBefore, us. simpl. rewrite !is_hole_resolve by lia.
    destruct (rs 0), (rs 1), (rs 2), (rs 3); reflexivity. }
  assert (Hlen : (length articles <= length queue + length us)%nat).
  { apply length_filter_used; [exact Hids|].
    intros a _ Ha. apply elem_of_usedIds in Ha as (i & b & Hi & Hr & Hid).
    apply list_elem_of_omap. exists i. split.
    - do 4 (destruct i as [|i]; [set_solver|]). lia.
    - rewrite Hr. simpl. now rewrite Hid. }
  lia.
Qed.

Lemma hole_gets_filler i :
  (i < 4)%nat -> rs i = None ->
  exists f, queue !! emptyBefore R i = Some f /\
            slotValue configIds articles R i = f.
Proof.
  intros Hi Hr.
  assert (Hh : is_hole R i = true) by (rewrite is_hole_resolve, Hr; [reflexivity|lia]).
  pose proof (emptyBefore_lt R i 4 Hi Hh) as Hlt.
  pose proof holes_le_fillers as Hle.
  destruct (queue !! emptyBefore R i) as [f|] eqn:Ef.
  - exists f. split; [reflexivity|].
    unfold slotValue, secondPass. now rewrite fill_fixed_get, Hr, Ef.
  - apply lookup_ge_None in Ef. lia.
Qed.

Lemma slots_differ i j :
  (i < j)%nat -> (j < 4)%nat ->
  slotValue configIds articles R i <> slotValue configIds articles R j.
Proof.
  intros Hij Hj.
  destruct (rs i) as [a|] eqn:Ei; destruct (rs j) as [b|] eqn:Ej.
  - unfold slotValue. rewrite !fill_fixed_get, Ei, Ej by lia. intros ->.
    apply resolve_Some in Ei as (n & Hn & Hz & Hf).
    apply resolve_Some in Ej as (m & Hm & _ & Hg).
    apply find_article_Some in Hf as [_ Hf]. apply find_article_Some in Hg as [_ Hg].
    apply Hz, (config_distinct i j n Hij Hj Hn). congruence.
  - destruct (hole_gets_filler j Hj Ej) as (f & Hf & ->).
    unfold slotValue. rewrite fill_fixed_get, Ei by lia. intros ->.
    apply list_elem_of_lookup_2, elem_of_fillers in Hf as [Hnot _].
    apply Hnot, elem_of_usedIds. exists i, f. repeat split; [lia|exact Ei].
  - destruct (hole_gets_filler i ltac:(lia) Ei) as (f & Hf & ->).
    unfold slotValue. rewrite fill_fixed_get, Ej by lia. intros <-.
    apply list_elem_of_lookup_2, elem_of_fillers in Hf as [Hnot _].
    apply Hnot, elem_of_usedIds. exists j, f. repeat split; [lia|exact Ej].
  - destruct (hole_gets_filler i ltac:(lia) Ei) as (f & Hf & ->).
    destruct (hole_gets_filler j Hj Ej) as (g & Hg & ->).
    intros ->.
    assert (Hnd : NoDup queue).
    { unfold fillers. apply NoDup_filter. now apply NoDup_fmap_1 in Hids. }
    pose proof (NoDup_lookup _ _ _ _ Hnd Hf Hg) as Heq.
    assert (Hh : is_hole R i = true)
      by (rewrite is_hole_resolve, Ei; [reflexivity|lia]).
    pose proof (emptyBefore_lt R i j Hij Hh). lia.
Qed.

End NoRepeats.

(** X23.  With unique article ids, at least four articles, and no non-zero
    id configured twice among the first four positions, the grid shows
    four pairwise different articles. *)
Theorem grid_without_repeats
        (configIds : list (option Z)) (articles : list Article.t) :
  NoDup (Article.id <$> articles) ->
  (4 <= length articles)%nat ->
  (forall i j n, (i < j)%nat -> (j < 4)%nat ->
                 js_get configIds i = Some n -> js_get configIds j = Some n ->
                 n = 0) ->
  exists s0 s1 s2 s3,
    currentRelatedArticles configIds articles = [Some s0; Some s1; Some s2; Some s3] /\
    NoDup [s0; s1; s2; s3].
Proof.
  intros Hids Hlen Hcfg.
  do 4 eexists. split; [apply currentRelatedArticles_spec|].
  repeat (apply NoDup_cons; split);
    rewrite ?not_elem_of_cons; repeat split;
    try apply not_elem_of_nil; try apply NoDup_nil_2;
    apply slots_differ; solve [assumption | lia].
Qed.

Lemma grid_without_repeats_witness :
  exists s0 s1 s2 s3,
    currentRelatedArticles [Some 4; None; Some 1; Some 99] sample_articles
    = [Some s0; Some s1; Some s2; Some s3] /\
    NoDup [s0; s1; s2; s3].
Proof.
  apply (grid_without_repeats [Some 4; None; Some 1; Some 99] sample_articles).
  - apply (bool_decide_unpack _). vm_compute. reflexivity.
  - simpl. lia.
  - intros i j n Hij Hj Hi' Hj'.
    destruct i as [|[|[|[|i]]]]; destruct j as [|[|[|[|j]]]]; try lia;
      vm_compute in Hi', Hj'; congruence.
Defined.
